(** * lpms/ffmpeg: the Go binding to the media runtime

    A shallow embedding of [ffmpeg/ffmpeg.go] ([RTMPToHLS], [Transcode]) and
    of the runtime behaviour that the package's tests observe
    ([ffmpeg/transmuxer_test.go]).  The C side of the package
    ([lpms_ffmpeg.h] and its implementation) is not part of the sources at
    hand: the two entry points [lpms_rtmp2hls] and [lpms_transcode] are
    parameters of the development, and the parts of the runtime that the
    specification describes are modelled in separate modules whose
    definitions say so. *)

From Stdlib Require Import ZArith String Ascii List Lia Sorted.
From stdpp Require Import gmap strings list pretty.

Open Scope string_scope.
Open Scope Z_scope.

(** ** Go library functions used by ffmpeg.go *)

(** [strings.Split] and [strings.Replace].  Every call site of ffmpeg.go
    passes a one-byte separator (["x"], ["k"]), so the separator is a
    byte here. *)
Module GoStrings.

(** [Split s sep]: the pieces of [s] between the occurrences of [sep];
    one more piece than there are separators, never an empty slice. *)
Fixpoint Split (s : string) (sep : ascii) : list string :=
  match s with
  | EmptyString => [EmptyString]
  | String c s' =>
      if Ascii.eqb c sep then EmptyString :: Split s' sep
      else match Split s' sep with
           | [] => [String c EmptyString]
           | piece :: pieces => String c piece :: pieces
           end
  end.

(** [Replace s old new 1]: the first occurrence of [old] replaced. *)
Fixpoint Replace1 (s : string) (old : ascii) (new : string) : string :=
  match s with
  | EmptyString => EmptyString
  | String c s' =>
      if Ascii.eqb c old then new ++ s'
      else String c (Replace1 s' old new)
  end.

(** Number of occurrences of a byte. *)
Fixpoint Count (s : string) (c : ascii) : nat :=
  match s with
  | EmptyString => 0%nat
  | String d s' => ((if Ascii.eqb d c then 1 else 0) + Count s' c)%nat
  end.




End GoStrings.

(** Go's [error] values.  [nil] is [None]. *)
Inductive num_err := ErrSyntax | ErrRange.

Inductive error_value :=
| ErrorsNew (text : string)                       (* errors.New(text) *)
| NumError (Func Num : string) (Err : num_err).   (* *strconv.NumError *)

Abbreviation error := (option error_value).
Abbreviation nil_error := (@None error_value).

(** [strconv.Atoi] on a 64-bit platform: [ParseInt(s, 10, 0)] with the
    function name of the error set to ["Atoi"].  An optional sign, then
    a non-empty run of decimal digits scanned left to right; the scan
    stops with a syntax error at the first other byte and with a range
    error as soon as the value leaves uint64. *)
Module Strconv.

Inductive scan := ScanOk (n : Z) | ScanSyntax | ScanRange.

Definition is_digit (c : ascii) : bool :=
  let n := Z.of_nat (nat_of_ascii c) in (48 <=? n) && (n <=? 57).

Definition digit (c : ascii) : Z := Z.of_nat (nat_of_ascii c) - 48.

Definition maxUint64 : Z := 2 ^ 64 - 1.
Definition cutoff10 : Z := maxUint64 / 10 + 1.

Fixpoint scan_digits (s : string) (n : Z) : scan :=
  match s with
  | EmptyString => ScanOk n
  | String c s' =>
      if negb (is_digit c) then ScanSyntax
      else if cutoff10 <=? n then ScanRange
      else let n1 := n * 10 + digit c in
           if maxUint64 <? n1 then ScanRange else scan_digits s' n1
  end.

Definition ParseUint (s : string) : scan :=
  match s with
  | EmptyString => ScanSyntax
  | _ => scan_digits s 0
  end.

Definition Atoi (s : string) : error_value + Z :=
  match s with
  | EmptyString => inl (NumError "Atoi" s ErrSyntax)
  | String c rest =>
      let neg := Ascii.eqb c "-" in
      let body := if neg || Ascii.eqb c "+" then rest else s in
      match ParseUint body with
      | ScanSyntax => inl (NumError "Atoi" s ErrSyntax)
      | ScanRange => inl (NumError "Atoi" s ErrRange)
      | ScanOk un =>
          if negb neg && (2 ^ 63 <=? un) then inl (NumError "Atoi" s ErrRange)
          else if neg && (2 ^ 63 <? un) then inl (NumError "Atoi" s ErrRange)
          else inr (if neg then - un else un)
      end
  end.

End Strconv.

(** ** Data of the package *)

(** The fields of [VideoProfile] that ffmpeg.go reads (the declaration
    of the type is in another file of the package). *)
Record VideoProfile := {
  Bitrate : string;
  Framerate : Z;
  Resolution : string
}.

Record AVRational := { num : Z; den : Z }.

(** [C.output_params], as the composite literal of [Transcode] fills it. *)
Record output_params := {
  fname : string;
  fps : AVRational;
  w : Z;
  h : Z;
  bitrate : Z
}.

(** Conversion to a C [int]: 32 bits, two's complement. *)
Definition C_int (z : Z) : Z := (z + 2 ^ 31) mod 2 ^ 32 - 2 ^ 31.

Definition ErrTranscoderRes : error_value := ErrorsNew "TranscoderInvalidResolution".

(** ** Effects

    A call either returns or panics; on its way it may invoke the media
    runtime, which transforms the world outside the process (files,
    sockets), and it may write a log line.  The copies of the Go
    strings in C memory ([C.CString], [C.free]) carry the same bytes
    and are not told apart from the strings. *)
Inductive event :=
| Call_rtmp2hls (inp outp ts_tmpl seglen : string)
| Call_transcode (inp : string) (params : list output_params) (n : Z)
| Infof (format arg : string).

Inductive outcome (A : Type) :=
| Done (a : A)
| Panic (msg : string).
Arguments Done {A} a.
Arguments Panic {A} msg.

Section Binding.

(** The world the media runtime acts on. *)
Variable World : Type.

(** The two runtime entry points: their C return code and their
    effect on the world. *)
Variable lpms_rtmp2hls : string -> string -> string -> string -> World -> Z * World.
Variable lpms_transcode : string -> list output_params -> Z -> World -> Z * World.

(** [Strerror] and [ErrorMap] are defined in another file of the
    package: a description per code, and a Go map from codes to
    errors.  Indexing a Go map at a missing key yields the zero value,
    here the nil error. *)
Variable Strerror : Z -> string.
Variable ErrorMap : gmap Z error.

Definition ErrorMap_index (ret : Z) : error := default None (ErrorMap !! ret).

Record state := { world : World; trace : list event }.

Definition M (A : Type) : Type := state -> outcome A * state.

Definition ret {A} (a : A) : M A := fun st => (Done a, st).
Definition bind {A B} (m : M A) (k : A -> M B) : M B :=
  fun st => match m st with
            | (Done a, st') => k a st'
            | (Panic msg, st') => (Panic msg, st')
            end.
Definition panic {A} (msg : string) : M A := fun st => (Panic msg, st).
Definition emit (e : event) : M unit :=
  fun st => (Done tt, {| world := world st; trace := (trace st ++ [e])%list |}).

Notation "x <- m ;; k" := (bind m (fun x => k))
  (at level 100, m at next level, right associativity).
Notation "m ;;; k" := (bind m (fun _ => k))
  (at level 100, right associativity).

Definition call_rtmp2hls (inp outp ts_tmpl seglen : string) : M Z :=
  fun st =>
    let '(r, wd) := lpms_rtmp2hls inp outp ts_tmpl seglen (world st) in
    (Done r, {| world := wd;
                trace := (trace st ++ [Call_rtmp2hls inp outp ts_tmpl seglen])%list |}).

Definition call_transcode (inp : string) (params : list output_params) (n : Z) : M Z :=
  fun st =>
    let '(r, wd) := lpms_transcode inp params n (world st) in
    (Done r, {| world := wd;
                trace := (trace st ++ [Call_transcode inp params n])%list |}).

(** ** RTMPToHLS (ffmpeg.go, lines 19-34) *)
Definition RTMPToHLS (localRTMPUrl outM3U8 tmpl seglen_secs : string) : M error :=
  r <- call_rtmp2hls localRTMPUrl outM3U8 tmpl seglen_secs ;;
  if negb (r =? 0) then
    emit (Infof "RTMP2HLS Transmux Return : %v\n" (Strerror r)) ;;;
    ret (ErrorMap_index r)
  else ret nil_error.

(** ** Transcode (ffmpeg.go, lines 36-69) *)

(** The name of the [i]-th output: [fmt.Sprintf("out%v%v", i, input)]. *)
Definition oname (input : string) (i : nat) : string :=
  "out" ++ pretty i ++ input.

(** One iteration of the loop over the profiles: the error it returns
    with, or the entry it stores in [params[i]]. *)
Definition profile_params (input : string) (i : nat) (param : VideoProfile)
  : error_value + output_params :=
  let res := GoStrings.Split (Resolution param) "x" in
  match res with
  | res0 :: res1 :: _ =>
      match Strconv.Atoi res0 with
      | inl err => inl err
      | inr w_ =>
          match Strconv.Atoi res1 with
          | inl err => inl err
          | inr h_ =>
              let br := GoStrings.Replace1 (Bitrate param) "k" "000" in
              match Strconv.Atoi br with
              | inl err => inl err
              | inr bitrate_ =>
                  inr {| fname := oname input i;
                         fps := {| num := C_int (Framerate param); den := 1 |};
                         w := C_int w_; h := C_int h_;
                         bitrate := C_int bitrate_ |}
              end
          end
      end
  | _ => inl ErrTranscoderRes
  end.

(** The loop, from index [i] on: the first error, or the filled slice. *)
Fixpoint fill_params (input : string) (i : nat) (ps : list VideoProfile)
  : error_value + list output_params :=
  match ps with
  | [] => inr []
  | param :: ps' =>
      match profile_params input i param with
      | inl err => inl err
      | inr op =>
          match fill_params input (S i) ps' with
          | inl err => inl err
          | inr ops => inr (op :: ops)
          end
      end
  end.

Definition Transcode (input : string) (ps : list VideoProfile) : M error :=
  match fill_params input 0 ps with
  | inl err => ret (Some err)
  | inr params =>
      match params with
      | [] => panic "index out of range [0] with length 0"   (* &params[0] *)
      | _ =>
          r <- call_transcode input params (C_int (Z.of_nat (length params))) ;;
          if negb (r =? 0) then
            emit (Infof "Transcoder Return : %v\n" (Strerror r)) ;;;
            ret (ErrorMap_index r)
          else ret nil_error
      end
  end.

(** What a call leaves behind once the runtime has answered [r]. *)
Definition after_call (st : state) (call : event) (log : string)
    (r : Z) (wd : World) : outcome error * state :=
  if r =? 0
  then (Done None, {| world := wd; trace := (trace st ++ [call])%list |})
  else (Done (ErrorMap_index r),
        {| world := wd;
           trace := ((trace st ++ [call]) ++ [Infof log (Strerror r)])%list |}).

End Binding.

Arguments world {World} _.
Arguments trace {World} _.

(** The statistics that the tests read off a transcode result
    ([res.Decoded.Frames], [res.Encoded[i].Pixels]); the types are
    declared in another file of the package. *)
Record MediaInfo := { Frames : Z; Pixels : Z }.
Record TranscodeResults := { Decoded : MediaInfo; Encoded : list MediaInfo }.

(** ** The packet pipeline of the runtime

    The C implementation behind [lpms_rtmp2hls] is not among the
    sources; the tests of the package observe it from outside. *)
Module Segmenter.

Inductive media_type := Video | Audio | Subtitle | Data.

Global Instance media_type_eq_dec : EqDecision media_type.
Proof. solve_decision. Defined.









(** Modelled from the spec: the stream selection of the segmenter (C
    source missing).  The output carries the video streams of the
    input first, then its audio streams; streams of any other type
    are left out.  The result lists the input indices in output
    order. *)
Definition indices_of (t : media_type) (streams : list media_type) : list nat :=
  filter (fun i => streams !! i = Some t) (seq 0 (length streams)).

(** Modelled from the spec: the input streams in output order, video
    before audio (C source missing). *)
Definition stream_order (streams : list media_type) : list nat :=
  (indices_of Video streams ++ indices_of Audio streams)%list.

(** The position of [i] in a list of indices. *)
Fixpoint index_of (i : nat) (l : list nat) : option nat :=
  match l with
  | [] => None
  | j :: l' => if Nat.eqb i j then Some 0%nat else S <$> index_of i l'
  end.

(** Modelled from the spec: the routing map, from the index of an input
    stream to its output index, if it has one (C source missing). *)
Definition stream_map (streams : list media_type) (i : nat) : option nat :=
  index_of i (stream_order streams).




(** Modelled from the spec: the rolling playlist (C source missing).
    Segments are named by their sequence number.  [playlist] lists
    the live segments, oldest first; [disk] is the set of segment
    files that exist. *)
Record hls := { playlist : list nat; disk : gset nat }.

(** Modelled from the spec: the window of the playlist, 6 when no bound
    is set; the test of segment deletion counts 6 files (C source
    missing). *)
Definition default_max_segments : nat := 6.

Definition window (maxSegments : nat) : nat :=
  if Nat.eqb maxSegments 0 then default_max_segments else maxSegments.

Definition hls_empty : hls := {| playlist := []; disk := ∅ |}.

(** Modelled from the spec: a finished segment enters the playlist (C
    source missing); once the live segments exceed the window, the
    oldest one is deleted from disk and removed from the playlist. *)
Definition add_segment (maxSegments : nat) (st : hls) (seg : nat) : hls :=
  let live := (playlist st ++ [seg])%list in
  let files := disk st ∪ {[seg]} in
  match live with
  | oldest :: rest =>
      if Nat.ltb (window maxSegments) (length live)
      then {| playlist := rest; disk := files ∖ {[oldest]} |}
      else {| playlist := live; disk := files |}
  | [] => {| playlist := live; disk := files |}
  end.

(** Modelled from the spec: the operation
    [segmentRTMPToHLS(inputURL, playlistPath, segmentTemplate,
    segmentSeconds, maxSegments)] on an input that yields [n]
    segments (C source missing). *)
Definition segmentRTMPToHLS (maxSegments n : nat) : hls :=
  foldl (add_segment maxSegments) hls_empty (seq 0 n).

(** Modelled from the spec: [lpms_rtmp2hls] as a transformer of the
    segment store (C source missing).  It receives the four strings
    of its C signature; how many segments the input yields is a
    property of the input. *)
Definition lpms_rtmp2hls (segments_of : string -> nat)
    (inp outp ts_tmpl seglen : string) (wd : hls) : Z * hls :=
  (0, foldl (add_segment 0) wd (seq 0 (segments_of inp))).

End Segmenter.

(** ** The scale stage of the filter graph *)
Module FilterStage.

(** Modelled from the spec: rounding to even (C source missing): the
    even integer nearest to [a / b], for positive [b]; of two equally
    near ones the lower (section 3 rounds downward), and never less
    than 2, since width and height are positive. *)
Definition round_even (a b : Z) : Z := Z.max 2 (2 * ((a + b - 1) / (2 * b))).

(** Modelled from the spec: the aspect-ratio adjustment of the scale
    stage (its C source is missing).  One dimension is taken from the
    target and rounded to even, the other follows from it by the source
    aspect ratio and is rounded to even.  Which one is pinned is fixed
    by the assertions of TestTranscoder_UnevenRes and
    TestTranscoder_StatisticsAspectRatio: the width when the source is
    at least as wide as it is tall, the height otherwise. *)
Definition adjust (src_w src_h target_w target_h : Z) : Z * Z :=
  if src_h <=? src_w
  then let adj_w := round_even target_w 1 in
       (adj_w, round_even (adj_w * src_h) src_w)
  else let adj_h := round_even target_h 1 in
       (round_even (adj_h * src_w) src_h, adj_h).

End FilterStage.

(** ** Vocabulary of the statements *)

(** A decimal integer as [Atoi] reads it: the part after an optional
    sign, and whether a string consists of decimal digits. *)
Definition unsigned_part (s : string) : string :=
  match s with
  | String c rest =>
      if Ascii.eqb c "-" || Ascii.eqb c "+" then rest else s
  | EmptyString => EmptyString
  end.

Fixpoint all_digits (s : string) : bool :=
  match s with
  | EmptyString => true
  | String c s' => Strconv.is_digit c && all_digits s'
  end.

Definition is_err {A} (r : error_value + A) : Prop :=
  match r with inl _ => True | inr _ => False end.

(** The bitrate string of a profile after the replacement of its first ["k"]. *)
Definition bitrate_digits (p : VideoProfile) : string :=
  GoStrings.Replace1 (Bitrate p) "k" "000".

(** A resolution with fewer than two components. *)
Definition resolution_missing (p : VideoProfile) : Prop :=
  (length (GoStrings.Split (Resolution p) "x") < 2)%nat.

(** The three strings of a profile that [Transcode] parses, when the
    resolution has its two components. *)
Definition parsed_strings (p : VideoProfile) : list string :=
  match GoStrings.Split (Resolution p) "x" with
  | res0 :: res1 :: _ => [res0; res1; bitrate_digits p]
  | _ => []
  end.

(** The state a call starts from, for a given world. *)
Definition initial {World} (wd : World) : state World :=
  {| world := wd; trace := [] |}.

(** A profile of the package's tests. *)
Definition P240p30fps16x9 : VideoProfile :=
  {| Bitrate := "600k"; Framerate := 30;
     Resolution := "426x240" |}.

Definition P144p30fps16x9 : VideoProfile :=
  {| Bitrate := "400k"; Framerate := 30;
     Resolution := "256x144" |}.

(** A runtime that answers every call with the same code and leaves
    the world alone; used to run the binding on concrete inputs. *)
Definition const_transcode (code : Z)
  : string -> list output_params -> Z -> unit -> Z * unit :=
  fun _ _ _ wd => (code, wd).

Definition const_rtmp2hls (code : Z)
  : string -> string -> string -> string -> unit -> Z * unit :=
  fun _ _ _ _ wd => (code, wd).

Definition no_Strerror : Z -> string := fun _ => "UNKNOWN_ERROR".

(** The number a string of decimal digits denotes, read left to right
    from an accumulator, and the number a signed decimal denotes. *)
Fixpoint decimal_from (s : string) (acc : Z) : Z :=
  match s with
  | EmptyString => acc
  | String c s' => decimal_from s' (acc * 10 + Strconv.digit c)
  end.

Definition decimal_value (s : string) : Z := decimal_from s 0.

Definition is_negative (s : string) : bool :=
  match s with
  | String c _ => Ascii.eqb c "-"
  | EmptyString => false
  end.

Definition signed_value (s : string) : Z :=
  if is_negative s then - decimal_value (unsigned_part s)
  else decimal_value (unsigned_part s).

(** An optional sign followed by at least one decimal digit. *)
Definition is_decimal (s : string) : bool :=
  match unsigned_part s with
  | EmptyString => false
  | body => all_digits body
  end.

(** A decimal whose value fits Go's 64-bit [int]. *)
Definition valid_int (s : string) : bool :=
  is_decimal s && (- 2 ^ 63 <=? signed_value s) && (signed_value s <? 2 ^ 63).

(** A profile that passes the checks of the loop of [Transcode]. *)
Definition profile_ok (p : VideoProfile) : bool :=
  match GoStrings.Split (Resolution p) "x" with
  | res0 :: res1 :: _ => valid_int res0 && valid_int res1 && valid_int (bitrate_digits p)
  | _ => false
  end.

(** The range of a C [int]. *)
Definition in_C_int (z : Z) : Prop := - 2 ^ 31 <= z < 2 ^ 31.

(** The events a call has added to a trace. *)
Definition is_runtime_call (e : event) : bool :=
  match e with
  | Call_rtmp2hls _ _ _ _ | Call_transcode _ _ _ => true
  | Infof _ _ => false
  end.

(** A profile with another resolution. *)
Definition with_resolution (p : VideoProfile) (res : string) : VideoProfile :=
  {| Bitrate := Bitrate p; Framerate := Framerate p; Resolution := res |}.

(** The numbers of a profile, and the profile written from them: the
    resolution as [<w>x<h>], the bitrate in thousands as [<b>k]. *)
Record numbers := { nw : Z; nh : Z; nkbps : N; nfps : Z }.

Definition render (x : numbers) : VideoProfile :=
  {| Bitrate := pretty (nkbps x) ++ "k";
     Framerate := nfps x;
     Resolution := pretty (nw x) ++ "x" ++ pretty (nh x) |}.

(** The entry of [params] that carries these numbers as they are. *)
Definition entry_of (input : string) (i : nat) (x : numbers) : output_params :=
  {| fname := oname input i;
     fps := {| num := nfps x; den := 1 |};
     w := nw x; h := nh x;
     bitrate := 1000 * Z.of_N (nkbps x) |}.

Definition numbers_in_C_int (x : numbers) : Prop :=
  in_C_int (nw x) /\ in_C_int (nh x) /\ in_C_int (nfps x) /\
  in_C_int (1000 * Z.of_N (nkbps x)).

(** The range of Go's 64-bit [int]. *)
Definition in_int64 (z : Z) : Prop := - 2 ^ 63 <= z < 2 ^ 63.



(** * Properties *)

(** ** Strings *)
Section StringFacts.
Import GoStrings.

Lemma Split_length s sep : length (Split s sep) = S (Count s sep).
Proof.
  induction s as [|c s IH]; simpl; [reflexivity|].
  destruct (Ascii.eqb c sep); simpl; [by rewrite IH|].
  destruct (Split s sep); simpl in *; lia.
Qed.

Lemma Split_short s sep :
  (length (Split s sep) < 2)%nat <-> Count s sep = 0%nat.
Proof. rewrite Split_length. lia. Qed.

Lemma Split_short_shape s sep :
  (length (Split s sep) < 2)%nat -> exists piece, Split s sep = [piece].
Proof.
  destruct (Split s sep) as [|piece [|? ?]] eqn:E; simpl; try lia.
  - pose proof (Split_length s sep) as L. rewrite E in L. discriminate.
  - eauto.
Qed.

Lemma Count_append s t c : Count (s ++ t) c = (Count s c + Count t c)%nat.
Proof. induction s as [|d s IH]; simpl; [reflexivity|]. rewrite IH. lia. Qed.

Lemma Count_Replace1 s old new :
  Count (Replace1 s old new) old =
    match Count s old with
    | O => O
    | S n => (Count new old + n)%nat
    end.
Proof.
  induction s as [|c s IH]; simpl; [reflexivity|].
  destruct (Ascii.eqb c old) eqn:E; simpl.
  - by rewrite Count_append.
  - by rewrite E, IH.
Qed.

Lemma Replace1_absent s old new : Count s old = 0%nat -> Replace1 s old new = s.
Proof.
  induction s as [|c s IH]; simpl; [reflexivity|].
  destruct (Ascii.eqb c old); simpl; [discriminate|].
  intros H. by rewrite IH.
Qed.




End StringFacts.

(** ** Atoi *)
Section AtoiFacts.
Import Strconv.

Lemma scan_digits_ok s n m : scan_digits s n = ScanOk m -> all_digits s = true.
Proof.
  revert n. induction s as [|c s IH]; simpl; intros n H; [reflexivity|].
  destruct (is_digit c); simpl in *; [|discriminate].
  destruct (cutoff10 <=? n); [discriminate|].
  destruct (maxUint64 <? n * 10 + digit c); [discriminate|].
  eapply IH, H.
Qed.

(** [Atoi] returns a number or a [NumError] that names ["Atoi"] and
    the string it was given. *)
Lemma Atoi_shape s :
  (exists v, Atoi s = inr v) \/ (exists err, Atoi s = inl (NumError "Atoi" s err)).
Proof.
  unfold Atoi. destruct s as [|c rest]; [right; eauto|].
  cbv zeta. destruct (ParseUint _) as [un| |]; [|right; eauto..].
  destruct (negb _ && _); [right; eauto|].
  destruct (_ && _); [right; eauto|]. left; eauto.
Qed.

Lemma Atoi_ok_digits s v :
  Atoi s = inr v ->
  unsigned_part s <> EmptyString /\ all_digits (unsigned_part s) = true.
Proof.
  unfold Atoi, unsigned_part. destruct s as [|c rest]; [discriminate|].
  cbv zeta. set (body := if Ascii.eqb c "-" || Ascii.eqb c "+" then rest else String c rest).
  unfold ParseUint. destruct body as [|d body'] eqn:E; [discriminate|].
  destruct (scan_digits (String d body') 0) as [un| |] eqn:S; [|discriminate..].
  intros _. split; [discriminate|]. eapply scan_digits_ok, S.
Qed.

Lemma Atoi_not_digits s :
  all_digits (unsigned_part s) = false ->
  exists err, Atoi s = inl (NumError "Atoi" s err).
Proof.
  intros H. destruct (Atoi_shape s) as [[v Hv]|He]; [|exact He].
  apply Atoi_ok_digits in Hv. destruct Hv as [_ Hv]. congruence.
Qed.

Lemma Atoi_is_err s : is_err (Atoi s) -> exists err, Atoi s = inl (NumError "Atoi" s err).
Proof.
  intros H. destruct (Atoi_shape s) as [[v Hv]|He]; [|exact He].
  rewrite Hv in H. destruct H.
Qed.

Lemma all_digits_Count s c :
  is_digit c = false -> GoStrings.Count s c <> 0%nat -> all_digits s = false.
Proof.
  intros Hc. induction s as [|d s IH]; simpl; [congruence|].
  destruct (Ascii.eqb_spec d c) as [->|_]; simpl.
  - intros _. by rewrite Hc.
  - intros H. rewrite IH by done. apply andb_false_r.
Qed.

Lemma Count_unsigned_part s c :
  Ascii.eqb "-" c = false -> Ascii.eqb "+" c = false ->
  GoStrings.Count (unsigned_part s) c = GoStrings.Count s c.
Proof.
  intros Hm Hp. destruct s as [|d rest]; [reflexivity|].
  unfold unsigned_part. cbn [GoStrings.Count].
  destruct (Ascii.eqb_spec d "-") as [->|_]; [by rewrite Hm|].
  destruct (Ascii.eqb_spec d "+") as [->|_]; [by rewrite Hp|].
  reflexivity.
Qed.

End AtoiFacts.

(** ** The loop over the profiles *)
Section LoopFacts.

Lemma profile_params_err input i input' j p e :
  profile_params input i p = inl e -> profile_params input' j p = inl e.
Proof.
  unfold profile_params.
  destruct (GoStrings.Split (Resolution p) "x") as [|res0 [|res1 ?]]; try done.
  destruct (Strconv.Atoi res0); [done|].
  destruct (Strconv.Atoi res1); [done|].
  destruct (Strconv.Atoi _); [done|discriminate].
Qed.

Lemma profile_params_missing input i p :
  resolution_missing p -> profile_params input i p = inl ErrTranscoderRes.
Proof.
  unfold resolution_missing, profile_params. intros H.
  destruct (Split_short_shape _ _ H) as [piece ->]. reflexivity.
Qed.

Lemma profile_params_fname input i p op :
  profile_params input i p = inr op -> fname op = oname input i.
Proof.
  unfold profile_params.
  destruct (GoStrings.Split (Resolution p) "x") as [|res0 [|res1 ?]]; try done.
  destruct (Strconv.Atoi res0); [done|].
  destruct (Strconv.Atoi res1); [done|].
  destruct (Strconv.Atoi _); [done|]. by intros [= <-].
Qed.

Lemma fill_params_app input i pre p post :
  fill_params input i (pre ++ p :: post) =
    match fill_params input i pre with
    | inl e => inl e
    | inr ops =>
        match profile_params input (i + length pre) p with
        | inl e => inl e
        | inr op =>
            match fill_params input (S (i + length pre)) post with
            | inl e => inl e
            | inr ops' => inr (ops ++ op :: ops')%list
            end
        end
    end.
Proof.
  revert i. induction pre as [|q pre IH]; intros i; simpl.
  - rewrite Nat.add_0_r. reflexivity.
  - destruct (profile_params input i q) as [e|op]; [reflexivity|].
    rewrite IH. replace (S i + length pre)%nat with (i + S (length pre))%nat by lia.
    destruct (fill_params input (S i) pre); [reflexivity|].
    destruct (profile_params _ _ p); [reflexivity|].
    destruct (fill_params _ _ post); reflexivity.
Qed.

(** A profile that fails its checks makes the loop return an error,
    wherever it stands in the list. *)
Lemma fill_params_bad input i input' j pre p post e :
  profile_params input' j p = inl e ->
  exists e', fill_params input i (pre ++ p :: post) = inl e'.
Proof.
  intros H. rewrite fill_params_app.
  destruct (fill_params input i pre); [eauto|].
  rewrite (profile_params_err _ _ input (i + length pre)%nat _ _ H). eauto.
Qed.

(** After profiles that pass, the error of the first failing profile
    is the error of the loop. *)
Lemma fill_params_first input i pre p post ops e :
  fill_params input i pre = inr ops ->
  profile_params input (i + length pre) p = inl e ->
  fill_params input i (pre ++ p :: post) = inl e.
Proof. intros H1 H2. by rewrite fill_params_app, H1, H2. Qed.

Lemma fill_params_lookup input i ps ops :
  fill_params input i ps = inr ops ->
  length ops = length ps /\
  forall j p, ps !! j = Some p ->
    exists op, ops !! j = Some op /\ profile_params input (i + j) p = inr op.
Proof.
  revert i ops. induction ps as [|q ps IH]; intros i ops; simpl.
  - intros [= <-]. split; [reflexivity|]. intros j p H. discriminate.
  - destruct (profile_params input i q) as [e|op] eqn:Hq; [discriminate|].
    destruct (fill_params input (S i) ps) as [e|ops'] eqn:Hps; [discriminate|].
    intros [= <-]. destruct (IH _ _ Hps) as [Hlen Hlk].
    split; [simpl; by rewrite Hlen|].
    intros [|j] p Hj; simpl in *.
    + injection Hj as <-. rewrite Nat.add_0_r. eauto.
    + destruct (Hlk j p Hj) as [op' [H1 H2]].
      exists op'. split; [done|]. by replace (i + S j)%nat with (S i + j)%nat by lia.
Qed.

End LoopFacts.

(** ** The two entry points, by cases *)
Section CallFacts.
Context {World : Type}.
Variable lpms_rtmp2hls : string -> string -> string -> string -> World -> Z * World.
Variable lpms_transcode : string -> list output_params -> Z -> World -> Z * World.
Variable Strerror : Z -> string.
Variable ErrorMap : gmap Z error.

Abbreviation Transcode' := (Transcode World lpms_transcode Strerror ErrorMap).
Abbreviation RTMPToHLS' := (RTMPToHLS World lpms_rtmp2hls Strerror ErrorMap).

Abbreviation after_call' := (after_call World Strerror ErrorMap).

Lemma RTMPToHLS_run url m3u8 tmpl seglen st :
  RTMPToHLS' url m3u8 tmpl seglen st =
    after_call' st (Call_rtmp2hls url m3u8 tmpl seglen)
      "RTMP2HLS Transmux Return : %v\n"
      (fst (lpms_rtmp2hls url m3u8 tmpl seglen (world st)))
      (snd (lpms_rtmp2hls url m3u8 tmpl seglen (world st))).
Proof.
  unfold RTMPToHLS, after_call, bind, call_rtmp2hls, emit, ret.
  destruct (lpms_rtmp2hls _ _ _ _ _) as [r wd]; simpl.
  destruct (r =? 0); reflexivity.
Qed.

Lemma Transcode_rejects input ps e st :
  fill_params input 0 ps = inl e -> Transcode' input ps st = (Done (Some e), st).
Proof. intros H. unfold Transcode. by rewrite H. Qed.

Lemma Transcode_run input ps params st :
  fill_params input 0 ps = inr params -> params <> [] ->
  Transcode' input ps st =
    after_call' st (Call_transcode input params (C_int (Z.of_nat (length params))))
      "Transcoder Return : %v\n"
      (fst (lpms_transcode input params (C_int (Z.of_nat (length params))) (world st)))
      (snd (lpms_transcode input params (C_int (Z.of_nat (length params))) (world st))).
Proof.
  intros H Hne. unfold Transcode. rewrite H.
  destruct params as [|op params]; [done|].
  unfold after_call, bind, call_transcode, emit, ret.
  destruct (lpms_transcode _ _ _ _) as [r wd]; simpl.
  destruct (r =? 0); reflexivity.
Qed.

Lemma Transcode_empty input st :
  Transcode' input [] st = (Panic "index out of range [0] with length 0", st).
Proof. reflexivity. Qed.

End CallFacts.

(** ** Return values of the binding *)

(** A Go map is finite: whatever [ErrorMap] holds, some nonzero code
    has no entry, and a runtime that answers with it makes [RTMPToHLS]
    return nil. *)
Lemma ErrorMap_misses_a_code (ErrorMap : gmap Z error) :
  exists r, r <> 0 /\ ErrorMap_index ErrorMap r = None.
Proof.
  destruct (exist_fresh (dom ErrorMap ∪ {[0]})) as [r Hr].
  apply not_elem_of_union in Hr as [Hdom H0].
  exists r. split.
  - intros ->. apply H0. by apply elem_of_singleton.
  - unfold ErrorMap_index. apply not_elem_of_dom in Hdom. by rewrite Hdom.
Qed.

Lemma RTMPToHLS_nil_on_unmapped_code (Strerror : Z -> string) (ErrorMap : gmap Z error) :
  exists r, r <> 0 /\
    (forall url m3u8 tmpl seglen st,
       fst (RTMPToHLS unit (const_rtmp2hls r) Strerror ErrorMap url m3u8 tmpl seglen st)
       = Done None).
Proof.
  destruct (ErrorMap_misses_a_code ErrorMap) as (r & Hr & Hnil).
  exists r. split; [exact Hr|]. intros url m3u8 tmpl seglen st.
  rewrite RTMPToHLS_run. unfold after_call, const_rtmp2hls. cbn [fst snd].
  destruct (Z.eqb_spec r 0); [done|]. simpl. by rewrite Hnil.
Qed.

(** C1, counterexample.  With a table that has no entry for the code 1,
    a runtime that answers 1 makes [RTMPToHLS] return nil: nil is
    returned although the runtime call did not return 0. *)
Lemma C1_unmapped_code_returns_nil :
  let table : gmap Z error := {[ (-2) := Some (ErrorsNew "No such file or directory") ]} in
  let out := fst (RTMPToHLS unit (const_rtmp2hls 1) no_Strerror table
                    "rtmp://localhost/stream" "out.m3u8" "out_%d.ts" "4" (initial tt)) in
  fst (const_rtmp2hls 1 "rtmp://localhost/stream" "out.m3u8" "out_%d.ts" "4" tt) = 1 /\
  ~ (out = Done None <-> 1 = 0).
Proof.
  split; [reflexivity|]. intros [H _].
  assert (E : (1 : Z) = 0) by (apply H; vm_compute; reflexivity). discriminate E.
Qed.

(** C1, as amended.  When [RTMPToHLS] is called, and when [Transcode]
    is called with a non-empty list of profiles that all pass the
    checks of the loop, the value returned is nil if the runtime call
    returns 0 and is [ErrorMap[r]] for every other return code [r]; so
    nil is returned exactly when the runtime returns 0 or the table
    holds no non-nil error for the code. *)
Theorem C1_return_follows_runtime_code {World : Type}
    (rh : string -> string -> string -> string -> World -> Z * World)
    (rt : string -> list output_params -> Z -> World -> Z * World)
    (Strerror : Z -> string) (ErrorMap : gmap Z error)
    (url m3u8 tmpl seglen input : string)
    (ps : list VideoProfile) (params : list output_params) (st : state World)
    (Hfill : fill_params input 0 ps = inr params) (Hne : params <> []) :
  let r1 := fst (rh url m3u8 tmpl seglen (world st)) in
  let r2 := fst (rt input params (C_int (Z.of_nat (length params))) (world st)) in
  let out1 := fst (RTMPToHLS World rh Strerror ErrorMap url m3u8 tmpl seglen st) in
  let out2 := fst (Transcode World rt Strerror ErrorMap input ps st) in
  (r1 = 0 -> out1 = Done None) /\
  (r1 <> 0 -> out1 = Done (ErrorMap_index ErrorMap r1)) /\
  (out1 = Done None <-> r1 = 0 \/ ErrorMap_index ErrorMap r1 = None) /\
  (r2 = 0 -> out2 = Done None) /\
  (r2 <> 0 -> out2 = Done (ErrorMap_index ErrorMap r2)) /\
  (out2 = Done None <-> r2 = 0 \/ ErrorMap_index ErrorMap r2 = None).
Proof.
  cbv zeta. rewrite RTMPToHLS_run, (Transcode_run _ _ _ _ _ _ _ Hfill Hne).
  unfold after_call.
  set (r1 := fst (rh _ _ _ _ _)). set (r2 := fst (rt _ _ _ _)).
  destruct (Z.eqb_spec r1 0) as [E1|E1]; destruct (Z.eqb_spec r2 0) as [E2|E2]; simpl;
    repeat split; intros; try tauto; try congruence; auto;
    match goal with
    | H : Done _ = Done _ |- _ => injection H; auto
    | H : _ \/ _ |- _ => destruct H; [tauto | congruence]
    end.
Qed.

(** A call with one profile of the tests and a runtime that answers 0. *)
Lemma C1_return_follows_runtime_code_witness :
  fst (Transcode unit (const_transcode 0) no_Strerror ∅ "test.ts"
         [P240p30fps16x9] (initial tt)) = Done None.
Proof.
  destruct (C1_return_follows_runtime_code (const_rtmp2hls 0) (const_transcode 0)
              no_Strerror ∅ "in" "out.m3u8" "out_%d.ts" "4" "test.ts"
              [P240p30fps16x9]
              [{| fname := "out0test.ts"; fps := {| num := 30; den := 1 |};
                  w := 426; h := 240; bitrate := 600000 |}]
              (initial tt) eq_refl ltac:(discriminate))
    as (_ & _ & _ & H & _).
  apply H. reflexivity.
Defined.

(** C2, counterexample.  The second profile has a resolution without
    ["x"], but the first one fails earlier, on its width: [Transcode]
    returns the error of [Atoi] and not [ErrTranscoderRes]. *)
Lemma C2_earlier_profile_fails_first :
  let p1 := {| Bitrate := "600k"; Framerate := 30; Resolution := "ax480" |} in
  let p2 := {| Bitrate := "600k"; Framerate := 30; Resolution := "640" |} in
  resolution_missing p2 /\
  fst (Transcode unit (const_transcode 0) no_Strerror ∅ "test.ts" [p1; p2] (initial tt))
    = Done (Some (NumError "Atoi" "a" ErrSyntax)) /\
  fst (Transcode unit (const_transcode 0) no_Strerror ∅ "test.ts" [p1; p2] (initial tt))
    <> Done (Some ErrTranscoderRes).
Proof.
  cbv zeta. split; [|split].
  - unfold resolution_missing. vm_compute. lia.
  - vm_compute. reflexivity.
  - vm_compute. discriminate.
Qed.

(** C2, as amended.  If a profile of the list has a resolution that
    splits on ["x"] into fewer than two components, [Transcode] returns
    an error and leaves world and trace as they were: the runtime is
    not invoked.  The error is [ErrTranscoderRes] when all the profiles
    before that one pass the checks of the loop. *)
Theorem C2_missing_resolution_rejected {World : Type}
    (rt : string -> list output_params -> Z -> World -> Z * World)
    (Strerror : Z -> string) (ErrorMap : gmap Z error)
    (input : string) (pre : list VideoProfile) (p : VideoProfile)
    (post : list VideoProfile) (st : state World)
    (Hmiss : resolution_missing p) :
  (exists e, Transcode World rt Strerror ErrorMap input (pre ++ p :: post)%list st
             = (Done (Some e), st)) /\
  (forall ops, fill_params input 0 pre = inr ops ->
     Transcode World rt Strerror ErrorMap input (pre ++ p :: post)%list st
     = (Done (Some ErrTranscoderRes), st)).
Proof.
  pose proof (profile_params_missing input (0 + length pre) p Hmiss) as Hp.
  split.
  - destruct (fill_params_bad input 0%nat _ _ pre p post _ Hp) as [e He].
    exists e. by apply Transcode_rejects.
  - intros ops Hpre. apply Transcode_rejects. eapply fill_params_first; eauto.
Qed.

(** A valid profile followed by one whose resolution has no [x]. *)
Lemma C2_missing_resolution_rejected_witness :
  let p := {| Bitrate := "600k"; Framerate := 30; Resolution := "640" |} in
  Transcode unit (const_transcode 0) no_Strerror ∅ "test.ts" [P240p30fps16x9; p] (initial tt)
    = (Done (Some ErrTranscoderRes), initial tt).
Proof.
  cbv zeta.
  refine (proj2 (C2_missing_resolution_rejected (const_transcode 0) no_Strerror ∅ "test.ts"
              [P240p30fps16x9]
              {| Bitrate := "600k"; Framerate := 30; Resolution := "640" |}
              [] (initial tt) _) _ _).
  - unfold resolution_missing. vm_compute. lia.
  - vm_compute. reflexivity.
Defined.

(** ** Output names *)




(** ** What a successful call returns *)

(** C4, counterexample.  A call with one output and a call with two
    outputs both succeed and return the same value, the nil error: no
    reading of the returned value yields one entry of encoded counts
    per output. *)
Lemma C4_success_carries_no_counts :
  let r1 := fst (Transcode unit (const_transcode 0) no_Strerror ∅ "test.ts"
                   [P240p30fps16x9] (initial tt)) in
  let r2 := fst (Transcode unit (const_transcode 0) no_Strerror ∅ "test.ts"
                   [P240p30fps16x9; P144p30fps16x9] (initial tt)) in
  r1 = Done None /\ r2 = Done None /\
  ~ exists results_of : outcome error -> TranscodeResults,
      length (Encoded (results_of r1)) = 1%nat /\
      length (Encoded (results_of r2)) = 2%nat.
Proof.
  cbv zeta.
  assert (E1 : fst (Transcode unit (const_transcode 0) no_Strerror ∅ "test.ts"
                      [P240p30fps16x9] (initial tt)) = Done None) by (vm_compute; reflexivity).
  assert (E2 : fst (Transcode unit (const_transcode 0) no_Strerror ∅ "test.ts"
                      [P240p30fps16x9; P144p30fps16x9] (initial tt)) = Done None)
    by (vm_compute; reflexivity).
  split; [exact E1|]. split; [exact E2|].
  rewrite E1, E2. intros [f [H1 H2]]. rewrite H1 in H2. discriminate.
Qed.

(** C4, as amended.  [Transcode] returns an error value and nothing
    else.  A call that returns has passed through the runtime or has
    failed a check of the loop; it returns nil exactly when all
    profiles pass the checks and the runtime answers 0 or a code
    without a non-nil error in the table.  The value of a successful
    call is the same for every input and every list of outputs. *)
Theorem C4_success_returns_nil_only {World : Type}
    (rt : string -> list output_params -> Z -> World -> Z * World)
    (Strerror : Z -> string) (ErrorMap : gmap Z error)
    (input : string) (ps : list VideoProfile) (st : state World) :
  fst (Transcode World rt Strerror ErrorMap input ps st) = Done None <->
  exists params,
    fill_params input 0 ps = inr params /\ ps <> [] /\
    let r := fst (rt input params (C_int (Z.of_nat (length params))) (world st)) in
    r = 0 \/ ErrorMap_index ErrorMap r = None.
Proof.
  split.
  - intros H. destruct (fill_params input 0 ps) as [e|params] eqn:Hfill.
    + rewrite (Transcode_rejects rt Strerror ErrorMap _ _ _ st Hfill) in H. discriminate.
    + destruct ps as [|p ps'].
      * rewrite Transcode_empty in H. discriminate.
      * assert (Hpar : params <> []).
        { intros ->. destruct (fill_params_lookup _ _ _ _ Hfill) as [Hl _]. discriminate. }
        exists params. split; [reflexivity|]. split; [discriminate|].
        rewrite (Transcode_run rt Strerror ErrorMap _ _ _ st Hfill Hpar) in H.
        unfold after_call in H. cbv zeta.
        destruct (Z.eqb_spec (fst (rt input params (C_int (Z.of_nat (length params))) (world st))) 0)
          as [E|E]; [by left|]. right. simpl in H. congruence.
  - intros (params & Hfill & Hne & Hr).
    assert (Hpar : params <> []).
    { intros ->. destruct (fill_params_lookup _ _ _ _ Hfill) as [Hl _].
      destruct ps; [done|discriminate]. }
    rewrite (Transcode_run rt Strerror ErrorMap _ _ _ st Hfill Hpar).
    unfold after_call. cbv zeta in Hr.
    destruct (Z.eqb_spec (fst (rt input params (C_int (Z.of_nat (length params))) (world st))) 0)
      as [E|E]; [reflexivity|]. simpl. destruct Hr as [Hr|Hr]; [done|]. by rewrite Hr.
Qed.

(** ** Parsing of the profiles *)

(** C9, counterexample.  The bitrate ["-1k"] becomes ["-1000"], which
    holds a byte that is not a digit; [Atoi] reads it as -1000 and
    [Transcode] goes on to call the runtime and returns nil. *)
Lemma C9_sign_is_accepted :
  let p := {| Bitrate := "-1k"; Framerate := 30; Resolution := "426x240" |} in
  bitrate_digits p = "-1000" /\
  all_digits (bitrate_digits p) = false /\
  Strconv.Atoi (bitrate_digits p) = inr (-1000) /\
  Transcode unit (const_transcode 0) no_Strerror ∅ "test.ts" [p] (initial tt)
    = (Done None,
       {| world := tt;
          trace := [Call_transcode "test.ts"
                      [{| fname := "out0test.ts"; fps := {| num := 30; den := 1 |};
                          w := 426; h := 240; bitrate := -1000 |}] 1] |}).
Proof. cbv zeta. repeat split; vm_compute; reflexivity. Qed.

(** C9, as amended.  For a profile whose resolution parses, reached
    after profiles that pass the checks, the bitrate is read by
    replacing the first ["k"] of the Bitrate string by ["000"] and
    parsing the result with [Atoi]: ["100k"] gives 100000 and ["1k5"]
    gives 10005.  When the replaced string has a byte that is neither a
    decimal digit nor a leading sign, as it has when the Bitrate holds
    a second ["k"], [Transcode] returns the error of [Atoi] for that
    string and does not invoke the runtime. *)
Theorem C9_bitrate_parsing {World : Type}
    (rt : string -> list output_params -> Z -> World -> Z * World)
    (Strerror : Z -> string) (ErrorMap : gmap Z error)
    (input : string) (pre : list VideoProfile) (p : VideoProfile)
    (post : list VideoProfile) (ops : list output_params)
    (res0 res1 : string) (rest : list string) (w_ h_ : Z) (st : state World)
    (Hpre : fill_params input 0 pre = inr ops)
    (Hres : GoStrings.Split (Resolution p) "x" = res0 :: res1 :: rest)
    (Hw : Strconv.Atoi res0 = inr w_) (Hh : Strconv.Atoi res1 = inr h_) :
  let br := GoStrings.Replace1 (Bitrate p) "k" "000" in
  (GoStrings.Replace1 "100k" "k" "000" = "100000" /\
   Strconv.Atoi "100000" = inr 100000 /\
   GoStrings.Replace1 "1k5" "k" "000" = "10005" /\
   Strconv.Atoi "10005" = inr 10005) /\
  (forall b, Strconv.Atoi br = inr b ->
     exists op, profile_params input (length pre) p = inr op /\ bitrate op = C_int b) /\
  (is_err (Strconv.Atoi br) ->
     exists err,
       Transcode World rt Strerror ErrorMap input (pre ++ p :: post)%list st
       = (Done (Some (NumError "Atoi" br err)), st)) /\
  (all_digits (unsigned_part br) = false -> is_err (Strconv.Atoi br)) /\
  ((2 <= GoStrings.Count (Bitrate p) "k")%nat -> all_digits (unsigned_part br) = false).
Proof.
  cbv zeta. split; [repeat split; vm_compute; reflexivity|].
  split; [|split; [|split]].
  - intros b Hb. unfold profile_params. rewrite Hres, Hw, Hh, Hb. eauto.
  - intros Herr. destruct (Atoi_is_err _ Herr) as [err He]. exists err.
    apply Transcode_rejects. eapply fill_params_first; [exact Hpre|].
    unfold profile_params. by rewrite Hres, Hw, Hh, He.
  - intros H. destruct (Atoi_not_digits _ H) as [err ->]. exact I.
  - intros H. apply (all_digits_Count _ "k"); [reflexivity|].
    rewrite Count_unsigned_part by reflexivity.
    rewrite Count_Replace1. destruct (GoStrings.Count (Bitrate p) "k") as [|[|n]]; simpl; lia.
Qed.

(** A bitrate with two [k], after a valid profile. *)
Lemma C9_bitrate_parsing_witness :
  let p := {| Bitrate := "1kk"; Framerate := 30; Resolution := "426x240" |} in
  exists err,
    Transcode unit (const_transcode 0) no_Strerror ∅ "test.ts" [P240p30fps16x9; p] (initial tt)
    = (Done (Some (NumError "Atoi" "1000k" err)), initial tt).
Proof.
  cbv zeta.
  destruct (C9_bitrate_parsing (const_transcode 0) no_Strerror ∅ "test.ts"
              [P240p30fps16x9]
              {| Bitrate := "1kk"; Framerate := 30; Resolution := "426x240" |}
              []
              [{| fname := "out0test.ts"; fps := {| num := 30; den := 1 |};
                  w := 426; h := 240; bitrate := 600000 |}]
              "426" "240" [] 426 240 (initial tt)
              eq_refl eq_refl eq_refl eq_refl) as (_ & _ & H & Hbad & Hk).
  apply H, Hbad, Hk. vm_compute. lia.
Defined.

(** C10, counterexample.  The second profile has a width that is not a
    decimal integer, but the first one has a resolution without ["x"]:
    [Transcode] returns [ErrTranscoderRes], which is not a parse
    error. *)
Lemma C10_missing_resolution_comes_first :
  let p1 := {| Bitrate := "600k"; Framerate := 30; Resolution := "640" |} in
  let p2 := {| Bitrate := "600k"; Framerate := 30; Resolution := "ax480" |} in
  GoStrings.Split (Resolution p2) "x" = ["a"; "480"] /\
  Strconv.Atoi "a" = inl (NumError "Atoi" "a" ErrSyntax) /\
  Transcode unit (const_transcode 0) no_Strerror ∅ "test.ts" [p1; p2] (initial tt)
    = (Done (Some ErrTranscoderRes), initial tt) /\
  (forall f n e, ErrTranscoderRes <> NumError f n e).
Proof.
  cbv zeta. repeat split; try (vm_compute; reflexivity). intros f n e. discriminate.
Qed.

(** C10, as amended.  If a profile of the list has a resolution
    component that [Atoi] rejects, or a Bitrate that [Atoi] rejects
    after the replacement, [Transcode] returns an error at once and
    leaves world and trace as they were: [lpms_transcode] is not called
    and the call has no effect through the runtime.  When the profiles
    before it pass the checks and its resolution has two components,
    the error returned is the [Atoi] error of one of its three parsed
    strings. *)
Theorem C10_parse_failure_rejected {World : Type}
    (rt : string -> list output_params -> Z -> World -> Z * World)
    (Strerror : Z -> string) (ErrorMap : gmap Z error)
    (input : string) (pre : list VideoProfile) (p : VideoProfile)
    (post : list VideoProfile) (st : state World)
    (Hbad : (exists res0 res1 rest,
               GoStrings.Split (Resolution p) "x" = res0 :: res1 :: rest /\
               (is_err (Strconv.Atoi res0) \/ is_err (Strconv.Atoi res1))) \/
            is_err (Strconv.Atoi (bitrate_digits p))) :
  (exists e,
     Transcode World rt Strerror ErrorMap input (pre ++ p :: post)%list st
     = (Done (Some e), st)) /\
  (forall ops, fill_params input 0 pre = inr ops -> ~ resolution_missing p ->
     exists s err,
       s ∈ parsed_strings p /\
       Strconv.Atoi s = inl (NumError "Atoi" s err) /\
       Transcode World rt Strerror ErrorMap input (pre ++ p :: post)%list st
       = (Done (Some (NumError "Atoi" s err)), st)).
Proof.
  assert (Hp : forall i,
    (exists e, profile_params input i p = inl e) /\
    (~ resolution_missing p ->
     exists s err, s ∈ parsed_strings p /\
       Strconv.Atoi s = inl (NumError "Atoi" s err) /\
       profile_params input i p = inl (NumError "Atoi" s err))).
  { intros i. unfold profile_params, parsed_strings, resolution_missing, bitrate_digits in *.
    destruct (GoStrings.Split (Resolution p) "x") as [|res0 [|res1 rest]] eqn:S.
    - split; [eauto|]. simpl. lia.
    - split; [eauto|]. simpl. lia.
    - destruct (Atoi_shape res0) as [[v0 E0]|[err0 E0]].
      2:{ rewrite E0. split; [eauto|]. intros _. exists res0, err0. split; [by repeat constructor|done]. }
      destruct (Atoi_shape res1) as [[v1 E1]|[err1 E1]].
      2:{ rewrite E0, E1. split; [eauto|]. intros _. exists res1, err1. split; [by repeat constructor|done]. }
      destruct (Atoi_shape (GoStrings.Replace1 (Bitrate p) "k" "000")) as [[b Eb]|[errb Eb]].
      2:{ rewrite E0, E1, Eb. split; [eauto|]. intros _.
          exists (GoStrings.Replace1 (Bitrate p) "k" "000"), errb.
          split; [by repeat constructor|done]. }
      exfalso. destruct Hbad as [(r0 & r1 & rs & [= <- <- <-] & [H|H])|H].
      + by rewrite E0 in H.
      + by rewrite E1 in H.
      + by rewrite Eb in H. }
  split.
  - destruct (Hp 0%nat) as [[e He] _].
    destruct (fill_params_bad input 0%nat _ _ pre p post _ He) as [e' He'].
    exists e'. by apply Transcode_rejects.
  - intros ops Hpre Hres. destruct (Hp (0 + length pre)%nat) as [_ H].
    destruct (H Hres) as (s & err & Hin & Hs & Hpp).
    exists s, err. split; [done|]. split; [done|].
    apply Transcode_rejects. eapply fill_params_first; eauto.
Qed.

(** A width that is not a number, after a valid profile. *)
Lemma C10_parse_failure_rejected_witness :
  let p := {| Bitrate := "600k"; Framerate := 30; Resolution := "ax480" |} in
  exists e,
    Transcode unit (const_transcode 0) no_Strerror ∅ "test.ts" [P240p30fps16x9; p] (initial tt)
    = (Done (Some e), initial tt).
Proof.
  cbv zeta.
  refine (proj1 (C10_parse_failure_rejected (const_transcode 0) no_Strerror ∅ "test.ts"
            [P240p30fps16x9]
            {| Bitrate := "600k"; Framerate := 30; Resolution := "ax480" |}
            [] (initial tt) _)).
  left. exists "a", "480", []. split; [reflexivity|]. left. exact I.
Defined.

(** ** The drop-late-packet policy *)
Section DropLate.
Import Segmenter.
Variable streams : list media_type.














End DropLate.

(** ** Stream selection of the segmenter *)
Section StreamOrder.
Import Segmenter.


Lemma index_of_not_elem i l : i ∉ l -> index_of i l = None.
Proof.
  induction l as [|j l IH]; intros H; [reflexivity|]. simpl.
  apply not_elem_of_cons in H as [Hne H].
  destruct (Nat.eqb_spec i j) as [->|_]; [done|]. by rewrite IH.
Qed.

Lemma elem_of_indices_of (t : media_type) (streams : list media_type) (i : nat) :
  i ∈ indices_of t streams <-> streams !! i = Some t.
Proof.
  unfold indices_of. rewrite list_elem_of_filter, elem_of_seq. split; [tauto|].
  intros H. split; [done|]. apply lookup_lt_Some in H. lia.
Qed.






Lemma stream_map_dropped (streams : list media_type) (i : nat) :
  streams !! i <> Some Video -> streams !! i <> Some Audio ->
  stream_map streams i = None.
Proof.
  intros Hv Ha. apply index_of_not_elem. unfold stream_order.
  rewrite elem_of_app, !elem_of_indices_of. tauto.
Qed.

End StreamOrder.







(** ** The rolling playlist *)
Section Rolling.
Import Segmenter.

Lemma window_pos m : (1 <= window m)%nat.
Proof.
  unfold window, default_max_segments. destruct (Nat.eqb_spec m 0); lia.
Qed.

(** One more segment on a playlist of consecutive segments. *)
Lemma add_segment_seq m (a k seg : nat) :
  seg = (a + k)%nat ->
  add_segment m {| playlist := seq a k; disk := list_to_set (seq a k) |} seg
  = if Nat.ltb (window m) (S k)
    then {| playlist := seq (S a) k; disk := list_to_set (seq (S a) k) |}
    else {| playlist := seq a (S k); disk := list_to_set (seq a (S k)) |}.
Proof.
  intros ->. unfold add_segment. cbn [playlist disk].
  replace (seq a k ++ [(a + k)%nat])%list with (seq a (S k)) by (by rewrite seq_S).
  cbn [seq length]. rewrite length_seq.
  destruct (Nat.ltb (window m) (S k)); f_equal; apply set_eq; intros x.
  - rewrite elem_of_difference, elem_of_union, !elem_of_list_to_set, !elem_of_seq,
      !elem_of_singleton. lia.
  - rewrite elem_of_union, !elem_of_list_to_set, elem_of_cons, !elem_of_seq,
      elem_of_singleton. lia.
Qed.

(** After [n] segments, the live segments are the latest
    [min n (window m)] ones, and they are the files on disk. *)
Lemma segmentRTMPToHLS_state m n :
  let k := Nat.min n (window m) in
  segmentRTMPToHLS m n
  = {| playlist := seq (n - k) k; disk := list_to_set (seq (n - k) k) |}.
Proof.
  cbv zeta. pose proof (window_pos m) as Hw.
  induction n as [|n IH]; [reflexivity|].
  unfold segmentRTMPToHLS in *. rewrite seq_S, foldl_app. cbn [foldl Nat.add].
  rewrite IH.
  rewrite add_segment_seq by lia.
  destruct (Nat.ltb_spec (window m) (S (Nat.min n (window m)))) as [Hge|Hlt].
  - rewrite (Nat.min_r n) by lia. rewrite (Nat.min_r (S n)) by lia.
    replace (S n - window m)%nat with (S (n - window m)) by lia. reflexivity.
  - rewrite (Nat.min_l n) by lia. rewrite (Nat.min_l (S n)) by lia.
    replace (n - n)%nat with 0%nat by lia. replace (S n - S n)%nat with 0%nat by lia.
    reflexivity.
Qed.

Lemma segmentRTMPToHLS_files m n :
  size (disk (segmentRTMPToHLS m n)) = Nat.min n (window m).
Proof.
  rewrite segmentRTMPToHLS_state. cbn [disk].
  rewrite size_list_to_set by apply NoDup_seq. apply length_seq.
Qed.

End Rolling.

(** C7, counterexample.  Modelled from the spec.  The operation of the
    specification, given the bound 2, leaves two files of an input of
    eight segments.  [RTMPToHLS] has no such argument: it hands its
    four strings to the runtime, and six files are left. *)
Lemma C7_binding_takes_no_bound :
  let final := snd (RTMPToHLS Segmenter.hls (Segmenter.lpms_rtmp2hls (fun _ => 8%nat))
                      no_Strerror ∅ "long.ts" "out.m3u8" "out_%d.ts" "1"
                      (initial Segmenter.hls_empty)) in
  size (Segmenter.disk (Segmenter.segmentRTMPToHLS 2 8)) = 2%nat /\
  trace final = [Call_rtmp2hls "long.ts" "out.m3u8" "out_%d.ts" "1"] /\
  size (Segmenter.disk (world final)) = 6%nat.
Proof.
  cbv zeta. split; [|split].
  - by rewrite segmentRTMPToHLS_files.
  - reflexivity.
  - change (world (snd (RTMPToHLS Segmenter.hls (Segmenter.lpms_rtmp2hls (fun _ => 8%nat))
                      no_Strerror ∅ "long.ts" "out.m3u8" "out_%d.ts" "1"
                      (initial Segmenter.hls_empty))))
      with (Segmenter.segmentRTMPToHLS 0 8).
    by rewrite segmentRTMPToHLS_files.
Qed.

(** C7, as amended.  Modelled from the spec.  [RTMPToHLS] takes an
    input, a playlist path, a segment template and a segment length,
    and no bound on the number of segments; these four strings are all
    the runtime receives.  The runtime keeps a rolling playlist with a
    window of 6: once the live segments exceed the window, the oldest
    segment file is deleted from disk and removed from the playlist, so
    that after [n] segments the latest [min n 6] are live and on disk;
    an input of six segments, or more, leaves exactly 6 segment files.
    The operation of the specification with a bound [m] leaves
    [min n m] files, and [min n 6] when [m] is 0. *)
Theorem C7_rolling_playlist
    (segments_of : string -> nat) (Strerror : Z -> string) (ErrorMap : gmap Z error)
    (url m3u8 tmpl seglen : string) (m : nat) :
  let n := segments_of url in
  let final := snd (RTMPToHLS Segmenter.hls (Segmenter.lpms_rtmp2hls segments_of)
                      Strerror ErrorMap url m3u8 tmpl seglen
                      (initial Segmenter.hls_empty)) in
  trace final = [Call_rtmp2hls url m3u8 tmpl seglen] /\
  Segmenter.playlist (world final) = seq (n - Nat.min n 6) (Nat.min n 6) /\
  Segmenter.disk (world final) = list_to_set (Segmenter.playlist (world final)) /\
  size (Segmenter.disk (world final)) = Nat.min n 6 /\
  ((6 <= n)%nat -> size (Segmenter.disk (world final)) = 6%nat) /\
  size (Segmenter.disk (Segmenter.segmentRTMPToHLS m n))
    = Nat.min n (if Nat.eqb m 0 then 6%nat else m).
Proof.
  cbv zeta.
  assert (E : snd (RTMPToHLS Segmenter.hls (Segmenter.lpms_rtmp2hls segments_of)
                     Strerror ErrorMap url m3u8 tmpl seglen (initial Segmenter.hls_empty))
              = {| world := Segmenter.segmentRTMPToHLS 0 (segments_of url);
                   trace := [Call_rtmp2hls url m3u8 tmpl seglen] |}) by reflexivity.
  rewrite E. cbn [world trace].
  pose proof (segmentRTMPToHLS_files 0 (segments_of url)) as Hsize.
  rewrite segmentRTMPToHLS_state. cbn [Segmenter.playlist Segmenter.disk].
  rewrite segmentRTMPToHLS_state in Hsize. cbn [Segmenter.disk] in Hsize.
  change (Segmenter.window 0) with 6%nat in *.
  split; [reflexivity|]. split; [reflexivity|]. split; [reflexivity|].
  split; [exact Hsize|]. split; [intros H; rewrite Hsize; lia|].
  apply segmentRTMPToHLS_files.
Qed.

(** ** Aspect ratio *)
Section Aspect.
Import FilterStage.

Lemma round_even_even a b : Z.even (round_even a b) = true.
Proof.
  unfold round_even. destruct (Z.max_spec 2 (2 * ((a + b - 1) / (2 * b)))) as [[_ ->]|[_ ->]].
  - by rewrite Z.even_mul.
  - reflexivity.
Qed.

Lemma round_even_pos a b : 2 <= round_even a b.
Proof. unfold round_even. lia. Qed.

(** Above one, the rounded value is within one of the exact quotient. *)
Lemma round_even_near a b :
  0 < b -> b < a -> Z.abs (round_even a b * b - a) <= b.
Proof.
  intros Hb Ha. unfold round_even.
  pose proof (Z.mul_div_le (a + b - 1) (2 * b) ltac:(lia)) as H1.
  pose proof (Z.mul_succ_div_gt (a + b - 1) (2 * b) ltac:(lia)) as H2.
  set (q := (a + b - 1) / (2 * b)) in *.
  assert (1 <= q) by nia.
  rewrite Z.max_r by lia. nia.
Qed.

(** Up to one, the rounded value is 2. *)
Lemma round_even_small a b : 0 < b -> a <= b -> round_even a b = 2.
Proof.
  intros Hb Ha. unfold round_even.
  pose proof (Z.mul_div_le (a + b - 1) (2 * b) ltac:(lia)) as H1.
  set (q := (a + b - 1) / (2 * b)) in *.
  assert (q <= 0) by nia. lia.
Qed.

(** An even positive number is left as it is, an odd one moves by one. *)
Lemma round_even_integer t :
  0 < t ->
  (Z.even t = true -> round_even t 1 = t) /\ Z.abs (round_even t 1 - t) <= 1.
Proof.
  intros Ht. unfold round_even. replace (t + 1 - 1) with t by lia.
  change (2 * 1) with 2.
  pose proof (Z.div_mod t 2 ltac:(lia)) as Hdm.
  pose proof (Z.mod_pos_bound t 2 ltac:(lia)) as Hm.
  split.
  - intros He. rewrite Zeven_mod in He. apply Z.eqb_eq in He. lia.
  - lia.
Qed.

End Aspect.

(** C8, counterexample.  Modelled from the spec.  The source 123x456
    with the target 426x240 is adjusted to 64x240, as the test asserts:
    the longer adjusted dimension is 240, the longer dimension of the
    target is 426. *)
Lemma C8_longer_dimension_not_pinned :
  FilterStage.adjust 123 456 426 240 = (64, 240) /\
  Z.max 64 240 <> Z.max 426 240.
Proof. split; [reflexivity|]. vm_compute. discriminate. Qed.

(** C8, as amended.  Modelled from the spec.  For a source and a target
    of positive dimensions, both adjusted dimensions are even and
    positive.  The adjusted width is the target width rounded to even
    when the source is at least as wide as it is tall, and the adjusted
    height is the target height rounded to even otherwise (an even
    target dimension is kept as it is).  The other dimension follows
    from the pinned one by the source aspect ratio: it is within one
    pixel of the exact ratio, and it is 2 when the exact ratio gives
    one pixel or less.  With the target 426x240, a 123x456 source gives
    64x240, a 123x457 source 64x240, a 123x123 source 426x426 (pinned
    to the width of the target), and a 456x123 source 426x114. *)
Theorem C8_aspect_ratio_adjustment (src_w src_h target_w target_h : Z)
    (Hsw : 0 < src_w) (Hsh : 0 < src_h) (Htw : 0 < target_w) (Hth : 0 < target_h) :
  let '(adj_w, adj_h) := FilterStage.adjust src_w src_h target_w target_h in
  (Z.even adj_w = true /\ Z.even adj_h = true /\ 0 < adj_w /\ 0 < adj_h) /\
  (src_h <= src_w ->
     (Z.even target_w = true -> adj_w = target_w) /\
     Z.abs (adj_w - target_w) <= 1 /\
     (src_w < adj_w * src_h -> Z.abs (adj_h * src_w - adj_w * src_h) <= src_w) /\
     (adj_w * src_h <= src_w -> adj_h = 2)) /\
  (src_w < src_h ->
     (Z.even target_h = true -> adj_h = target_h) /\
     Z.abs (adj_h - target_h) <= 1 /\
     (src_h < adj_h * src_w -> Z.abs (adj_w * src_h - adj_h * src_w) <= src_h) /\
     (adj_h * src_w <= src_h -> adj_w = 2)) /\
  FilterStage.adjust 123 456 426 240 = (64, 240) /\
  FilterStage.adjust 123 457 426 240 = (64, 240) /\
  FilterStage.adjust 123 123 426 240 = (426, 426) /\
  FilterStage.adjust 456 123 426 240 = (426, 114).
Proof.
  unfold FilterStage.adjust at 1. cbv zeta.
  destruct (Z.leb_spec src_h src_w) as [Hle|Hlt].
  - destruct (round_even_integer target_w Htw) as [Hfix Hnear].
    split; [|split; [intros _|split; [lia|repeat split; reflexivity]]].
    + repeat split; try apply round_even_even.
      all: pose proof (round_even_pos target_w 1);
        pose proof (round_even_pos (FilterStage.round_even target_w 1 * src_h) src_w); lia.
    + split; [exact Hfix|]. split; [exact Hnear|]. split.
      * intros H. by apply round_even_near.
      * intros H. by apply round_even_small.
  - destruct (round_even_integer target_h Hth) as [Hfix Hnear].
    split; [|split; [lia|split; [intros _|repeat split; reflexivity]]].
    + repeat split; try apply round_even_even.
      all: pose proof (round_even_pos target_h 1);
        pose proof (round_even_pos (FilterStage.round_even target_h 1 * src_w) src_h); lia.
    + split; [exact Hfix|]. split; [exact Hnear|]. split.
      * intros H. by apply round_even_near.
      * intros H. by apply round_even_small.
Qed.

(** A 16:9 source and the target 124x456 of the statistics test. *)
Lemma C8_aspect_ratio_adjustment_witness :
  let '(adj_w, adj_h) := FilterStage.adjust 1280 720 124 456 in
  adj_w = 124 /\ adj_h = 70 /\ Z.even adj_h = true /\
  Z.abs (adj_h * 1280 - adj_w * 720) <= 1280.
Proof.
  pose proof (C8_aspect_ratio_adjustment 1280 720 124 456
                ltac:(lia) ltac:(lia) ltac:(lia) ltac:(lia)) as H.
  change (FilterStage.adjust 1280 720 124 456) with (124, 70) in *.
  destruct H as ((_ & He & _) & Hland & _).
  destruct (Hland ltac:(lia)) as (_ & _ & Hn & _).
  split; [reflexivity|]. split; [reflexivity|]. split; [exact He|]. apply Hn. lia.
Defined.

(** * Further properties of the binding *)

(** ** What [Atoi] accepts, and the value it returns *)
Section AtoiValue.
Import Strconv.

Lemma digit_range c : is_digit c = true -> 0 <= digit c <= 9.
Proof. unfold is_digit, digit. intros H. apply andb_true_iff in H as [H1 H2]. lia. Qed.

Lemma decimal_from_ge s n :
  all_digits s = true -> 0 <= n -> n <= decimal_from s n.
Proof.
  revert n. induction s as [|c s IH]; simpl; intros n H Hn; [lia|].
  apply andb_true_iff in H as [Hc Hs]. pose proof (digit_range c Hc).
  specialize (IH (n * 10 + digit c) Hs). lia.
Qed.

(** On digits, the scan computes the decimal value, or stops with a
    range error when the value leaves uint64. *)
Lemma scan_digits_value s n :
  all_digits s = true -> 0 <= n <= maxUint64 ->
  scan_digits s n =
    if decimal_from s n <=? maxUint64 then ScanOk (decimal_from s n) else ScanRange.
Proof.
  revert n. induction s as [|c s IH]; simpl; intros n H Hn.
  - destruct (Z.leb_spec n maxUint64); [reflexivity|lia].
  - apply andb_true_iff in H as [Hc Hs]. rewrite Hc. cbn [negb].
    pose proof (digit_range c Hc) as Hd.
    pose proof (decimal_from_ge s (n * 10 + digit c) Hs ltac:(lia)) as Hge.
    unfold cutoff10, maxUint64 in *.
    destruct (Z.leb_spec (( 2 ^ 64 - 1) / 10 + 1) n) as [Hcut|Hcut].
    + destruct (Z.leb_spec (decimal_from s (n * 10 + digit c)) (2 ^ 64 - 1)); [|reflexivity].
      exfalso. change ((2 ^ 64 - 1) / 10 + 1) with 1844674407370955162 in Hcut. lia.
    + destruct (Z.ltb_spec (2 ^ 64 - 1) (n * 10 + digit c)) as [Hov|Hov].
      * destruct (Z.leb_spec (decimal_from s (n * 10 + digit c)) (2 ^ 64 - 1)); [lia|reflexivity].
      * apply IH; [exact Hs|lia].
Qed.

Lemma unsigned_part_nonneg s :
  all_digits (unsigned_part s) = true -> 0 <= decimal_value (unsigned_part s).
Proof. intros H. unfold decimal_value. by apply decimal_from_ge. Qed.

(** [Atoi] succeeds exactly on the signed decimals whose value fits a
    64-bit [int], and returns that value. *)
Lemma Atoi_spec s v :
  Atoi s = inr v <-> valid_int s = true /\ v = signed_value s.
Proof.
  unfold valid_int, is_decimal, signed_value.
  destruct s as [|c rest].
  { simpl. split; [discriminate|]. intros [H _]. discriminate. }
  unfold Atoi. cbv zeta. cbn [is_negative].
  change (if (Ascii.eqb c "-") || (Ascii.eqb c "+") then rest else String c rest)
    with (unsigned_part (String c rest)).
  set (body := unsigned_part (String c rest)).
  unfold ParseUint.
  destruct body as [|d body'] eqn:Eb.
  { split; [discriminate|]. intros [H _]. discriminate. }
  destruct (all_digits (String d body')) eqn:Hd.
  - rewrite scan_digits_value by (done || (unfold maxUint64; lia)).
    pose proof (decimal_from_ge (String d body') 0 Hd ltac:(lia)) as Hge.
    fold (decimal_value (String d body')) in *.
    set (un := decimal_value (String d body')) in *.
    unfold maxUint64.
    destruct (Z.leb_spec un (2 ^ 64 - 1)) as [Hle|Hgt].
    + destruct (Ascii.eqb c "-"); cbn [negb andb].
      * destruct (Z.ltb_spec (2 ^ 63) un) as [Hbig|Hfit].
        -- split; [discriminate|]. intros [Hv _].
           apply andb_true_iff in Hv as [Hv _]. apply Z.leb_le in Hv. lia.
        -- split; [by intros [= <-]; split;
                     [apply andb_true_iff; split; [apply Z.leb_le|apply Z.ltb_lt]; lia|]
                  |by intros [_ ->]].
      * destruct (Z.leb_spec (2 ^ 63) un) as [Hbig|Hfit].
        -- split; [discriminate|]. intros [Hv _].
           apply andb_true_iff in Hv as [_ Hv]. apply Z.ltb_lt in Hv. lia.
        -- split; [by intros [= <-]; split;
                     [apply andb_true_iff; split; [apply Z.leb_le|apply Z.ltb_lt]; lia|]
                  |by intros [_ ->]].
    + split; [discriminate|]. intros [Hv _]. exfalso.
      destruct (Ascii.eqb c "-"); cbn [andb] in Hv;
        apply andb_true_iff in Hv as [H1 H2];
        apply Z.leb_le in H1; apply Z.ltb_lt in H2; lia.
  - split; [|intros [H _]; discriminate].
    destruct (scan_digits (String d body') 0) as [un| |] eqn:Hs; [|discriminate..].
    apply scan_digits_ok in Hs. congruence.
Qed.

End AtoiValue.

(** ** Decimal numerals *)
Section Numerals.
Import Strconv.

Lemma pretty_N_char_digit x :
  (x < 10)%N ->
  is_digit (pretty_N_char x) = true /\ digit (pretty_N_char x) = Z.of_N x.
Proof.
  intros H.
  assert (x = 0 \/ x = 1 \/ x = 2 \/ x = 3 \/ x = 4 \/ x = 5 \/ x = 6 \/ x = 7
          \/ x = 8 \/ x = 9)%N as Hx by lia.
  repeat (destruct Hx as [->|Hx]; [split; reflexivity|]). subst. split; reflexivity.
Qed.

Lemma decimal_from_app a b n :
  decimal_from (a ++ b) n = decimal_from b (decimal_from a n).
Proof. revert n. induction a as [|c a IH]; simpl; intros n; [reflexivity|apply IH]. Qed.

Lemma all_digits_app a b : all_digits (a ++ b) = all_digits a && all_digits b.
Proof.
  induction a as [|c a IH]; simpl; [reflexivity|]. rewrite IH. apply andb_assoc.
Qed.

(** The digits that [pretty] puts before [s] denote [x]. *)
Lemma decimal_from_pretty_N_go x s :
  decimal_from (pretty_N_go x s) 0 = decimal_from s (Z.of_N x).
Proof.
  revert s. induction (N.lt_wf_0 x) as [x _ IH]; intros s.
  destruct (N.eq_dec x 0%N) as [->|Hx]; [by rewrite pretty_N_go_0|].
  rewrite pretty_N_go_step by lia.
  rewrite IH by (apply N.div_lt; lia). cbn [decimal_from].
  destruct (pretty_N_char_digit (x mod 10)%N) as [_ ->]; [apply N.mod_lt; lia|].
  f_equal. pose proof (N.div_mod x 10%N ltac:(lia)). lia.
Qed.

Lemma all_digits_pretty_N_go x s : all_digits (pretty_N_go x s) = all_digits s.
Proof.
  revert s. induction (N.lt_wf_0 x) as [x _ IH]; intros s.
  destruct (N.eq_dec x 0%N) as [->|Hx]; [by rewrite pretty_N_go_0|].
  rewrite pretty_N_go_step by lia.
  rewrite IH by (apply N.div_lt; lia). cbn [all_digits].
  by destruct (pretty_N_char_digit (x mod 10)%N) as [-> _]; [apply N.mod_lt; lia|].
Qed.

Lemma pretty_N_go_nonempty x s : s <> EmptyString -> pretty_N_go x s <> EmptyString.
Proof.
  revert s. induction (N.lt_wf_0 x) as [x _ IH]; intros s Hs.
  destruct (N.eq_dec x 0%N) as [->|Hx]; [by rewrite pretty_N_go_0|].
  rewrite pretty_N_go_step by lia. apply IH; [apply N.div_lt; lia|discriminate].
Qed.

Lemma pretty_N_digits (n : N) :
  pretty n <> EmptyString /\ all_digits (pretty n) = true /\
  decimal_value (pretty n) = Z.of_N n.
Proof.
  unfold pretty, pretty_N. destruct (decide (n = 0%N)) as [->|Hn].
  - repeat split; discriminate.
  - split; [|split].
    + rewrite pretty_N_go_step by lia. apply pretty_N_go_nonempty. discriminate.
    + apply all_digits_pretty_N_go.
    + unfold decimal_value. apply decimal_from_pretty_N_go.
Qed.

(** A string of digits has no sign. *)
Lemma all_digits_unsigned s :
  all_digits s = true -> unsigned_part s = s /\ is_negative s = false.
Proof.
  destruct s as [|c s]; [done|]. simpl. intros H. apply andb_true_iff in H as [Hc _].
  destruct (Ascii.eqb_spec c "-") as [->|_]; [discriminate|].
  destruct (Ascii.eqb_spec c "+") as [->|_]; [discriminate|]. done.
Qed.

Lemma Count_all_digits s c : is_digit c = false -> all_digits s = true -> GoStrings.Count s c = 0%nat.
Proof.
  intros Hc H. destruct (GoStrings.Count s c) eqn:E; [reflexivity|].
  rewrite (all_digits_Count s c) in H; [discriminate|exact Hc|lia].
Qed.

Lemma is_decimal_digits s :
  s <> EmptyString -> all_digits s = true ->
  is_decimal s = true /\ signed_value s = decimal_value s /\
  is_decimal (String "-" s) = true /\ signed_value (String "-" s) = - decimal_value s.
Proof.
  intros Hne Hd. unfold is_decimal, signed_value.
  destruct (all_digits_unsigned _ Hd) as [-> ->].
  cbn [unsigned_part is_negative]. change (Ascii.eqb "-" "-") with true. cbn [orb].
  destruct s; [done|]. by rewrite Hd.
Qed.

(** The decimal form of an integer of the 64-bit range is read back by
    [Atoi]. *)
Lemma Atoi_pretty (z : Z) :
  - 2 ^ 63 <= z < 2 ^ 63 -> Atoi (pretty z) = inr z.
Proof.
  intros Hz. apply Atoi_spec. unfold valid_int.
  destruct z as [|p|p].
  - split; reflexivity.
  - change (pretty (Z.pos p)) with (pretty (N.pos p)).
    destruct (pretty_N_digits (N.pos p)) as (Hne & Hd & Hv).
    destruct (is_decimal_digits _ Hne Hd) as (-> & -> & _). rewrite Hv.
    split; [|lia]. apply andb_true_iff. split; [apply Z.leb_le|apply Z.ltb_lt]; lia.
  - change (pretty (Z.neg p)) with (String "-" (pretty (N.pos p))).
    destruct (pretty_N_digits (N.pos p)) as (Hne & Hd & Hv).
    destruct (is_decimal_digits _ Hne Hd) as (_ & _ & -> & ->). rewrite Hv.
    split; [|lia]. apply andb_true_iff. split; [apply Z.leb_le|apply Z.ltb_lt]; lia.
Qed.

Lemma Count_pretty_Z (z : Z) c :
  is_digit c = false -> Ascii.eqb "-" c = false -> GoStrings.Count (pretty z) c = 0%nat.
Proof.
  intros Hc Hm. destruct z as [|p|p].
  - change (pretty 0) with "0". by apply Count_all_digits.
  - change (pretty (Z.pos p)) with (pretty (N.pos p)).
    apply Count_all_digits; [done|]. apply pretty_N_digits.
  - change (pretty (Z.neg p)) with (String "-" (pretty (N.pos p))).
    cbn [GoStrings.Count]. rewrite Hm.
    rewrite Count_all_digits; [done|done|]. apply pretty_N_digits.
Qed.

End Numerals.

(** ** Splitting and replacing *)
Section SplitFacts.
Import GoStrings.

Lemma Split_no_sep s sep : Count s sep = 0%nat -> Split s sep = [s].
Proof.
  induction s as [|c s IH]; simpl; [reflexivity|].
  destruct (Ascii.eqb c sep); simpl; [discriminate|]. intros H. by rewrite IH.
Qed.

Lemma Split_app_sep a b sep :
  Split (a ++ String sep b) sep = (Split a sep ++ Split b sep)%list.
Proof.
  induction a as [|c a IH]; simpl.
  - by rewrite Ascii.eqb_refl.
  - destruct (Ascii.eqb c sep); [by rewrite IH|]. rewrite IH.
    destruct (Split a sep) as [|piece pieces] eqn:E; [|reflexivity].
    pose proof (Split_length a sep) as L. rewrite E in L. discriminate.
Qed.

Lemma Replace1_app a b old new :
  Count a old = 0%nat -> Replace1 (a ++ String old b) old new = a ++ new ++ b.
Proof.
  induction a as [|c a IH]; simpl.
  - by rewrite Ascii.eqb_refl.
  - destruct (Ascii.eqb c old); simpl; [discriminate|]. intros H. by rewrite IH.
Qed.

End SplitFacts.

(** ** Conversion to a C int *)
Section CInt.

Lemma C_int_range z : in_C_int (C_int z).
Proof.
  unfold in_C_int, C_int.
  pose proof (Z.mod_pos_bound (z + 2 ^ 31) (2 ^ 32) ltac:(lia)). lia.
Qed.

Lemma C_int_id z : in_C_int z -> C_int z = z.
Proof. unfold in_C_int, C_int. intros H. rewrite Z.mod_small; lia. Qed.

Lemma C_int_periodic z k : C_int (z + k * 2 ^ 32) = C_int z.
Proof.
  unfold C_int. replace (z + k * 2 ^ 32 + 2 ^ 31) with (z + 2 ^ 31 + k * 2 ^ 32) by lia.
  by rewrite Z.mod_add by lia.
Qed.

End CInt.

(** ** Strings: lengths and cancellation *)
Section AppendFacts.

Lemma length_append a b :
  String.length (a ++ b) = (String.length a + String.length b)%nat.
Proof. induction a as [|c a IH]; simpl; [reflexivity|by rewrite IH]. Qed.

Lemma append_cancel_r a b s : a ++ s = b ++ s -> a = b.
Proof.
  revert b. induction a as [|c a IH]; intros [|d b] H.
  - reflexivity.
  - apply (f_equal String.length) in H. rewrite !length_append in H.
    cbn [String.length] in H. lia.
  - apply (f_equal String.length) in H. rewrite !length_append in H.
    cbn [String.length] in H. lia.
  - change (String c (a ++ s) = String d (b ++ s)) in H.
    injection H as -> H. f_equal. by apply IH.
Qed.

Lemma oname_inj input i j : oname input i = oname input j -> i = j.
Proof.
  unfold oname. intros H. apply (inj (String.append "out")) in H.
  apply append_cancel_r in H. by apply (inj pretty) in H.
Qed.

Lemma oname_length input i :
  (String.length input < String.length (oname input i))%nat.
Proof. unfold oname. rewrite !length_append. cbn [String.length]. lia. Qed.

End AppendFacts.

(** ** More on the loop over the profiles *)
Section LoopMore.

Lemma fill_params_concat input i l1 l2 :
  fill_params input i (l1 ++ l2) =
    match fill_params input i l1 with
    | inl e => inl e
    | inr o1 =>
        match fill_params input (i + length l1) l2 with
        | inl e => inl e
        | inr o2 => inr (o1 ++ o2)%list
        end
    end.
Proof.
  revert i. induction l1 as [|q l1 IH]; intros i; simpl.
  - rewrite Nat.add_0_r. by destruct (fill_params input i l2).
  - destruct (profile_params input i q) as [e|op]; [reflexivity|].
    rewrite IH. replace (S i + length l1)%nat with (i + S (length l1))%nat by lia.
    destruct (fill_params input (S i) l1); [reflexivity|].
    by destruct (fill_params input (i + S (length l1)) l2).
Qed.

(** The entry of a profile that passes, field by field. *)
Lemma profile_params_inr input i p op :
  profile_params input i p = inr op ->
  exists res0 res1 rest w_ h_ b_,
    GoStrings.Split (Resolution p) "x" = res0 :: res1 :: rest /\
    Strconv.Atoi res0 = inr w_ /\ Strconv.Atoi res1 = inr h_ /\
    Strconv.Atoi (bitrate_digits p) = inr b_ /\
    op = {| fname := oname input i;
            fps := {| num := C_int (Framerate p); den := 1 |};
            w := C_int w_; h := C_int h_; bitrate := C_int b_ |}.
Proof.
  unfold profile_params, bitrate_digits.
  destruct (GoStrings.Split (Resolution p) "x") as [|res0 [|res1 rest]]; try done.
  destruct (Strconv.Atoi res0) as [|w_] eqn:E0; [done|].
  destruct (Strconv.Atoi res1) as [|h_] eqn:E1; [done|].
  destruct (Strconv.Atoi (GoStrings.Replace1 (Bitrate p) "k" "000")) as [|b_] eqn:Eb; [done|].
  intros H. injection H as <-. by exists res0, res1, rest, w_, h_, b_.
Qed.

Lemma profile_params_ok input i p :
  (exists op, profile_params input i p = inr op) <-> profile_ok p = true.
Proof.
  unfold profile_ok. split.
  - intros [op H]. apply profile_params_inr in H
      as (res0 & res1 & rest & w_ & h_ & b_ & -> & H0 & H1 & Hb & _).
    apply Atoi_spec in H0 as [-> _]. apply Atoi_spec in H1 as [-> _].
    by apply Atoi_spec in Hb as [-> _].
  - unfold profile_params, bitrate_digits.
    destruct (GoStrings.Split (Resolution p) "x") as [|res0 [|res1 rest]]; try done.
    intros H. apply andb_true_iff in H as [H Hb]. apply andb_true_iff in H as [H0 H1].
    rewrite (proj2 (Atoi_spec res0 _) (conj H0 eq_refl)).
    rewrite (proj2 (Atoi_spec res1 _) (conj H1 eq_refl)).
    rewrite (proj2 (Atoi_spec _ _) (conj Hb eq_refl)). eauto.
Qed.

Lemma fill_params_ok input i ps :
  (exists ops, fill_params input i ps = inr ops) <-> forallb profile_ok ps = true.
Proof.
  revert i. induction ps as [|p ps IH]; intros i; simpl.
  - split; eauto.
  - rewrite andb_true_iff, <- (IH (S i)), <- (profile_params_ok input i p). split.
    + intros [ops H]. destruct (profile_params input i p) as [|op]; [done|].
      destruct (fill_params input (S i) ps) as [|ops']; [done|]. eauto.
    + intros [[op ->] [ops' ->]]. eauto.
Qed.

(** A call that returns an error and leaves the state as it was has
    failed a check of the loop. *)
Lemma Transcode_rejected {World : Type}
    (rt : string -> list output_params -> Z -> World -> Z * World)
    (Strerror : Z -> string) (ErrorMap : gmap Z error)
    (input : string) (ps : list VideoProfile) (e : error_value) (st : state World) :
  Transcode World rt Strerror ErrorMap input ps st = (Done (Some e), st) <->
  fill_params input 0 ps = inl e.
Proof.
  split; [|apply Transcode_rejects].
  destruct (fill_params input 0 ps) as [e'|params] eqn:Hfill.
  - rewrite (Transcode_rejects rt Strerror ErrorMap _ _ _ st Hfill). by intros [= ->].
  - destruct params as [|op params].
    + unfold Transcode. rewrite Hfill. discriminate.
    + rewrite (Transcode_run rt Strerror ErrorMap _ _ _ st Hfill ltac:(discriminate)).
      unfold after_call. intros H. exfalso.
      destruct (_ =? 0); injection H as _ H;
        apply (f_equal trace) in H; simpl in H;
        apply (f_equal (@length event)) in H; rewrite !length_app in H; simpl in H; lia.
Qed.

End LoopMore.

(** ** Transcode: panics, effects, rejection *)

(** X1.  [Transcode] panics exactly when the list of profiles is empty
    (the address of [params[0]] is taken on a slice of length 0); the
    panic comes before the call of the runtime, and world and trace
    are as they were. *)
Theorem X1_Transcode_panics_iff_empty {World : Type}
    (rt : string -> list output_params -> Z -> World -> Z * World)
    (Strerror : Z -> string) (ErrorMap : gmap Z error)
    (input : string) (ps : list VideoProfile) (st : state World) :
  ((exists msg, fst (Transcode World rt Strerror ErrorMap input ps st) = Panic msg)
   <-> ps = []) /\
  (ps = [] -> snd (Transcode World rt Strerror ErrorMap input ps st) = st).
Proof.
  split; [split|].
  - intros [msg H]. destruct ps as [|p ps]; [reflexivity|]. exfalso.
    destruct (fill_params input 0 (p :: ps)) as [e|params] eqn:Hfill.
    + rewrite (Transcode_rejects rt Strerror ErrorMap _ _ _ st Hfill) in H. discriminate.
    + assert (Hpar : params <> []).
      { intros ->. destruct (fill_params_lookup _ _ _ _ Hfill) as [Hl _]. discriminate. }
      rewrite (Transcode_run rt Strerror ErrorMap _ _ _ st Hfill Hpar) in H.
      unfold after_call in H. destruct (_ =? 0); discriminate.
  - intros ->. eexists. reflexivity.
  - intros ->. reflexivity.
Qed.

(** The effects of a call of [Transcode], by cases. *)
Lemma Transcode_effects {World : Type}
    (rt : string -> list output_params -> Z -> World -> Z * World)
    (Strerror : Z -> string) (ErrorMap : gmap Z error)
    (input : string) (ps : list VideoProfile) (st : state World) :
  snd (Transcode World rt Strerror ErrorMap input ps st) = st \/
  exists params log,
    fill_params input 0 ps = inr params /\
    length params = length ps /\ ps <> [] /\
    world (snd (Transcode World rt Strerror ErrorMap input ps st))
      = snd (rt input params (C_int (Z.of_nat (length ps))) (world st)) /\
    trace (snd (Transcode World rt Strerror ErrorMap input ps st))
      = (trace st ++ Call_transcode input params (C_int (Z.of_nat (length ps))) :: log)%list /\
    Forall (fun e => is_runtime_call e = false) log.
Proof.
  destruct (fill_params input 0 ps) as [e|params] eqn:Hfill.
  - left. by rewrite (Transcode_rejects rt Strerror ErrorMap _ _ _ st Hfill).
  - destruct ps as [|p ps]; [by left|]. right.
    destruct (fill_params_lookup _ _ _ _ Hfill) as [Hlen _].
    assert (Hpar : params <> []) by (intros ->; discriminate).
    rewrite (Transcode_run rt Strerror ErrorMap _ _ _ st Hfill Hpar).
    unfold after_call. rewrite Hlen.
    destruct (fst _ =? 0).
    + exists params, []. repeat split; try done.
    + exists params, [Infof "Transcoder Return : %v\n"
                        (Strerror (fst (rt input params
                           (C_int (Z.of_nat (length (p :: ps)))) (world st))))].
      repeat split; try done.
      * cbn [snd trace]. by rewrite <- app_assoc.
      * by repeat constructor.
Qed.

(** X2.  A call of [Transcode] is all or nothing.  Either it leaves
    world and trace untouched, or every profile has passed the checks
    and the runtime is invoked exactly once, with the input path, one
    entry per profile and their count; the only other event is a log
    line, and [lpms_rtmp2hls] is never invoked. *)
Theorem X2_Transcode_all_or_nothing {World : Type}
    (rt : string -> list output_params -> Z -> World -> Z * World)
    (Strerror : Z -> string) (ErrorMap : gmap Z error)
    (input : string) (ps : list VideoProfile) (st : state World) :
  snd (Transcode World rt Strerror ErrorMap input ps st) = st \/
  exists params log,
    fill_params input 0 ps = inr params /\
    length params = length ps /\ ps <> [] /\
    world (snd (Transcode World rt Strerror ErrorMap input ps st))
      = snd (rt input params (C_int (Z.of_nat (length ps))) (world st)) /\
    trace (snd (Transcode World rt Strerror ErrorMap input ps st))
      = (trace st ++ Call_transcode input params (C_int (Z.of_nat (length ps))) :: log)%list /\
    Forall (fun e => is_runtime_call e = false) log.
Proof. apply Transcode_effects. Qed.

(** X3.  [Transcode] rejects a list, returning an error with world and
    trace untouched, exactly when some profile is not well formed: its
    resolution has fewer than two components, or one of the first two
    components or the bitrate after replacement is not an optional
    sign and decimal digits with a value in the 64-bit range. *)
Theorem X3_Transcode_rejects_iff_bad_profile {World : Type}
    (rt : string -> list output_params -> Z -> World -> Z * World)
    (Strerror : Z -> string) (ErrorMap : gmap Z error)
    (input : string) (ps : list VideoProfile) (st : state World) :
  (exists e, Transcode World rt Strerror ErrorMap input ps st = (Done (Some e), st))
  <-> forallb profile_ok ps = false.
Proof.
  rewrite <- not_true_iff_false, <- (fill_params_ok input 0 ps). split.
  - intros [e H]. apply Transcode_rejected in H. intros [ops Hops]. congruence.
  - intros H. destruct (fill_params input 0 ps) as [e|ops] eqn:Hfill.
    + exists e. by apply Transcode_rejects.
    + exfalso. eauto.
Qed.

(** X4.  The error of a rejected list is [ErrTranscoderRes] or the
    [NumError] of [Atoi] for one of the strings parsed from one of its
    profiles; no other error comes out of the checks. *)
Theorem X4_rejection_errors {World : Type}
    (rt : string -> list output_params -> Z -> World -> Z * World)
    (Strerror : Z -> string) (ErrorMap : gmap Z error)
    (input : string) (ps : list VideoProfile) (e : error_value) (st : state World)
    (Hrej : Transcode World rt Strerror ErrorMap input ps st = (Done (Some e), st)) :
  (e = ErrTranscoderRes /\ exists p, p ∈ ps /\ resolution_missing p) \/
  (exists p s err,
     p ∈ ps /\ s ∈ parsed_strings p /\ e = NumError "Atoi" s err /\
     Strconv.Atoi s = inl e).
Proof.
  apply Transcode_rejected in Hrej. revert Hrej. generalize 0%nat.
  induction ps as [|p ps IH]; intros i; simpl; [discriminate|].
  destruct (profile_params input i p) as [e'|op] eqn:Hp.
  - intros [= ->]. clear IH.
    unfold profile_params in Hp. unfold parsed_strings, resolution_missing, bitrate_digits.
    destruct (GoStrings.Split (Resolution p) "x") as [|res0 [|res1 rest]] eqn:HS.
    + injection Hp as <-. left. split; [done|]. exists p. split; [left|].
      rewrite HS. simpl. lia.
    + injection Hp as <-. left. split; [done|]. exists p. split; [left|].
      rewrite HS. simpl. lia.
    + right. exists p.
      destruct (Atoi_shape res0) as [[v0 E0]|[err0 E0]]; rewrite E0 in Hp.
      2:{ injection Hp as <-. exists res0, err0. rewrite HS.
          repeat split; [left|by repeat constructor|done]. }
      destruct (Atoi_shape res1) as [[v1 E1]|[err1 E1]]; rewrite E1 in Hp.
      2:{ injection Hp as <-. exists res1, err1. rewrite HS.
          repeat split; [left|by repeat constructor|done]. }
      destruct (Atoi_shape (GoStrings.Replace1 (Bitrate p) "k" "000"))
        as [[b Eb]|[errb Eb]]; rewrite Eb in Hp; [discriminate|].
      injection Hp as <-. exists (GoStrings.Replace1 (Bitrate p) "k" "000"), errb.
      rewrite HS. repeat split; [left|by repeat constructor|done].
  - destruct (fill_params input (S i) ps) as [e'|ops] eqn:Hps; [|discriminate].
    intros [= ->]. destruct (IH _ Hps) as [[He (q & Hq & Hm)]|(q & s & err & Hq & H)].
    + left. split; [done|]. exists q. split; [by right|done].
    + right. exists q, s, err. split; [by right|done].
Qed.

(** A resolution without [x] before a valid profile. *)
Lemma X4_rejection_errors_witness :
  let bad := {| Bitrate := "600k"; Framerate := 30; Resolution := "640" |} in
  (ErrTranscoderRes = ErrTranscoderRes /\
   exists p, p ∈ [bad; P240p30fps16x9] /\ resolution_missing p) \/
  (exists p s err,
     p ∈ [bad; P240p30fps16x9] /\ s ∈ parsed_strings p /\
     ErrTranscoderRes = NumError "Atoi" s err /\ Strconv.Atoi s = inl ErrTranscoderRes).
Proof.
  exact (X4_rejection_errors (const_transcode 0) no_Strerror ∅ "test.ts"
           [{| Bitrate := "600k"; Framerate := 30; Resolution := "640" |}; P240p30fps16x9]
           ErrTranscoderRes (initial tt) eq_refl).
Defined.

Section LoopIndependent.

Lemma profile_params_inr_indep input i input' j p op :
  profile_params input i p = inr op ->
  profile_params input' j p
  = inr {| fname := oname input' j; fps := fps op; w := w op; h := h op;
           bitrate := bitrate op |}.
Proof.
  intros H. apply profile_params_inr in H
    as (res0 & res1 & rest & w_ & h_ & b_ & HS & H0 & H1 & Hb & ->).
  unfold profile_params. unfold bitrate_digits in Hb. by rewrite HS, H0, H1, Hb.
Qed.

Lemma fill_params_err_indep input i input' j ps e :
  fill_params input i ps = inl e -> fill_params input' j ps = inl e.
Proof.
  revert i j. induction ps as [|p ps IH]; intros i j; simpl; [discriminate|].
  destruct (profile_params input i p) as [e'|op] eqn:Hp.
  - intros [= ->]. by rewrite (profile_params_err _ _ input' j _ _ Hp).
  - rewrite (profile_params_inr_indep _ _ input' j _ _ Hp).
    destruct (fill_params input (S i) ps) as [e'|ops] eqn:Hps; [|discriminate].
    intros [= ->]. by rewrite (IH _ (S j) Hps).
Qed.

Lemma fill_params_names input i ps ops :
  fill_params input i ps = inr ops ->
  map fname ops = map (oname input) (seq i (length ps)).
Proof.
  revert i ops. induction ps as [|p ps IH]; intros i ops; simpl.
  - by intros [= <-].
  - destruct (profile_params input i p) as [e|op] eqn:Hp; [discriminate|].
    destruct (fill_params input (S i) ps) as [e|ops'] eqn:Hps; [discriminate|].
    intros [= <-]. simpl. by rewrite (profile_params_fname _ _ _ _ Hp), (IH _ _ Hps).
Qed.

Lemma fill_params_fields input i ps ops :
  fill_params input i ps = inr ops ->
  Forall (fun o => in_C_int (w o) /\ in_C_int (h o) /\ in_C_int (bitrate o) /\
                   in_C_int (num (fps o)) /\ den (fps o) = 1) ops.
Proof.
  revert i ops. induction ps as [|p ps IH]; intros i ops; simpl.
  - intros [= <-]. constructor.
  - destruct (profile_params input i p) as [e|op] eqn:Hp; [discriminate|].
    destruct (fill_params input (S i) ps) as [e|ops'] eqn:Hps; [discriminate|].
    intros [= <-]. constructor; [|by eapply IH].
    apply profile_params_inr in Hp as (? & ? & ? & ? & ? & ? & _ & _ & _ & _ & ->).
    cbn [w h bitrate fps num den]. repeat split; apply C_int_range.
Qed.

(** The runtime call found in the trace of a call from an empty trace. *)
Lemma Transcode_call_in_trace {World : Type}
    (rt : string -> list output_params -> Z -> World -> Z * World)
    (Strerror : Z -> string) (ErrorMap : gmap Z error)
    (input : string) (ps : list VideoProfile) (wd : World)
    (inp : string) (params : list output_params) (n : Z) :
  Call_transcode inp params n
    ∈ trace (snd (Transcode World rt Strerror ErrorMap input ps (initial wd))) ->
  inp = input /\ n = C_int (Z.of_nat (length ps)) /\ fill_params input 0 ps = inr params.
Proof.
  destruct (Transcode_effects rt Strerror ErrorMap input ps (initial wd))
    as [->|(params' & log & Hfill & Hlen & Hne & _ & -> & Hlog)].
  - intros H. by apply elem_of_nil in H.
  - cbn [initial trace app]. intros H. apply elem_of_cons in H as [[= -> -> ->]|H].
    + done.
    + exfalso. rewrite Forall_forall in Hlog. specialize (Hlog _ H). discriminate.
Qed.

End LoopIndependent.

(** X5.  Whether [Transcode] rejects a list, and with which error, does
    not depend on the input path: a list rejected for one input is
    rejected with the same error for every other input. *)
Theorem X5_rejection_ignores_input {World : Type}
    (rt : string -> list output_params -> Z -> World -> Z * World)
    (Strerror : Z -> string) (ErrorMap : gmap Z error)
    (input input' : string) (ps : list VideoProfile) (e : error_value)
    (st : state World) :
  Transcode World rt Strerror ErrorMap input ps st = (Done (Some e), st) <->
  Transcode World rt Strerror ErrorMap input' ps st = (Done (Some e), st).
Proof.
  rewrite !Transcode_rejected. split; apply fill_params_err_indep.
Qed.

(** X6.  A rejection is final: when a list is rejected, every list
    that extends it is rejected with the same error, from any state and
    without reaching the runtime; the profiles after the failing one
    are not looked at. *)
Theorem X6_rejection_stable_under_extension {World : Type}
    (rt : string -> list output_params -> Z -> World -> Z * World)
    (Strerror : Z -> string) (ErrorMap : gmap Z error)
    (input : string) (pre post : list VideoProfile) (e : error_value)
    (st st' : state World)
    (Hrej : Transcode World rt Strerror ErrorMap input pre st = (Done (Some e), st)) :
  Transcode World rt Strerror ErrorMap input (pre ++ post)%list st' = (Done (Some e), st').
Proof.
  apply Transcode_rejected in Hrej. apply Transcode_rejected.
  by rewrite fill_params_concat, Hrej.
Qed.

(** A bad profile, then any profile after it. *)
Lemma X6_rejection_stable_under_extension_witness :
  Transcode unit (const_transcode 0) no_Strerror ∅ "test.ts"
    ([{| Bitrate := "600k"; Framerate := 30; Resolution := "640" |}] ++ [P240p30fps16x9])%list
    (initial tt)
  = (Done (Some ErrTranscoderRes), initial tt).
Proof.
  exact (X6_rejection_stable_under_extension (const_transcode 0) no_Strerror ∅ "test.ts"
           [{| Bitrate := "600k"; Framerate := 30; Resolution := "640" |}]
           [P240p30fps16x9] ErrTranscoderRes (initial tt) (initial tt) eq_refl).
Defined.

(** X7.  The first profile that is not well formed decides: after
    well-formed profiles, the call returns what the call on that
    profile alone returns, whatever follows it and whatever the input
    path. *)
Theorem X7_first_bad_profile_decides {World : Type}
    (rt : string -> list output_params -> Z -> World -> Z * World)
    (Strerror : Z -> string) (ErrorMap : gmap Z error)
    (input input' : string) (pre : list VideoProfile) (p : VideoProfile)
    (post : list VideoProfile) (st : state World)
    (Hpre : forallb profile_ok pre = true) (Hbad : profile_ok p = false) :
  Transcode World rt Strerror ErrorMap input (pre ++ p :: post)%list st
  = Transcode World rt Strerror ErrorMap input' [p] st.
Proof.
  apply (fill_params_ok input 0) in Hpre as [ops Hops].
  destruct (profile_params input' 0 p) as [e|op] eqn:Hp.
  2:{ exfalso. apply not_true_iff_false in Hbad. apply Hbad.
      apply (profile_params_ok input' 0). eauto. }
  rewrite (Transcode_rejects rt Strerror ErrorMap input' [p] e st)
    by (simpl; by rewrite Hp).
  apply Transcode_rejects. eapply fill_params_first; [exact Hops|].
  eapply profile_params_err, Hp.
Qed.

(** A well-formed profile, a bitrate that is not a number, anything. *)
Lemma X7_first_bad_profile_decides_witness :
  Transcode unit (const_transcode 0) no_Strerror ∅ "a.ts"
    ([P240p30fps16x9]
     ++ {| Bitrate := "fast"; Framerate := 30; Resolution := "426x240" |}
        :: [P144p30fps16x9])%list (initial tt)
  = Transcode unit (const_transcode 0) no_Strerror ∅ "b.ts"
      [{| Bitrate := "fast"; Framerate := 30; Resolution := "426x240" |}] (initial tt).
Proof.
  exact (X7_first_bad_profile_decides (const_transcode 0) no_Strerror ∅ "a.ts" "b.ts"
           [P240p30fps16x9]
           {| Bitrate := "fast"; Framerate := 30; Resolution := "426x240" |}
           [P144p30fps16x9] (initial tt) eq_refl eq_refl).
Defined.

(** X8.  Whatever the profiles, every number handed to the runtime is
    in the range of a C int: the count of outputs, and the width,
    height, bitrate and frame-rate numerator of every output; the
    frame-rate denominator is always 1. *)
Theorem X8_runtime_arguments_in_C_int_range {World : Type}
    (rt : string -> list output_params -> Z -> World -> Z * World)
    (Strerror : Z -> string) (ErrorMap : gmap Z error)
    (input : string) (ps : list VideoProfile) (wd : World)
    (inp : string) (params : list output_params) (n : Z)
    (Hcall : Call_transcode inp params n
               ∈ trace (snd (Transcode World rt Strerror ErrorMap input ps (initial wd)))) :
  inp = input /\ in_C_int n /\ length params = length ps /\
  Forall (fun o => in_C_int (w o) /\ in_C_int (h o) /\ in_C_int (bitrate o) /\
                   in_C_int (num (fps o)) /\ den (fps o) = 1) params.
Proof.
  apply Transcode_call_in_trace in Hcall as (-> & -> & Hfill).
  split; [reflexivity|]. split; [apply C_int_range|].
  split; [by destruct (fill_params_lookup _ _ _ _ Hfill)|].
  by eapply fill_params_fields.
Qed.

(** The call of the runtime for one profile of the tests. *)
Lemma X8_runtime_arguments_in_C_int_range_witness :
  in_C_int 1 /\
  Forall (fun o => in_C_int (w o) /\ in_C_int (h o) /\ in_C_int (bitrate o) /\
                   in_C_int (num (fps o)) /\ den (fps o) = 1)
    [{| fname := "out0test.ts"; fps := {| num := 30; den := 1 |};
        w := 426; h := 240; bitrate := 600000 |}].
Proof.
  destruct (X8_runtime_arguments_in_C_int_range (const_transcode 0) no_Strerror ∅
              "test.ts" [P240p30fps16x9] tt "test.ts"
              [{| fname := "out0test.ts"; fps := {| num := 30; den := 1 |};
                  w := 426; h := 240; bitrate := 600000 |}] 1
              ltac:(vm_compute; left)) as (_ & Hn & _ & Hf).
  split; [exact Hn|exact Hf].
Defined.

(** X9.  The output names of one call are pairwise distinct strings,
    and none of them is the string of the input path. *)
Theorem X9_output_names_distinct {World : Type}
    (rt : string -> list output_params -> Z -> World -> Z * World)
    (Strerror : Z -> string) (ErrorMap : gmap Z error)
    (input : string) (ps : list VideoProfile) (wd : World)
    (inp : string) (params : list output_params) (n : Z)
    (Hcall : Call_transcode inp params n
               ∈ trace (snd (Transcode World rt Strerror ErrorMap input ps (initial wd)))) :
  NoDup (map fname params) /\ Forall (fun o => fname o <> input) params.
Proof.
  apply Transcode_call_in_trace in Hcall as (-> & -> & Hfill).
  pose proof (fill_params_names _ _ _ _ Hfill) as Hn. split.
  - rewrite Hn. apply NoDup_fmap_2; [|apply NoDup_seq].
    intros i j. apply oname_inj.
  - apply Forall_forall. intros o Ho.
    assert (Hin : fname o ∈ map fname params) by (by apply list_elem_of_fmap_2).
    rewrite Hn in Hin. apply list_elem_of_fmap in Hin as (i & -> & _).
    intros E. pose proof (oname_length input i) as L. rewrite E in L. lia.
Qed.

(** Two outputs of one call. *)
Lemma X9_output_names_distinct_witness :
  NoDup ["out0test.ts"; "out1test.ts"].
Proof.
  exact (proj1 (X9_output_names_distinct (const_transcode 0) no_Strerror ∅
           "test.ts" [P240p30fps16x9; P144p30fps16x9] tt "test.ts"
           [{| fname := "out0test.ts"; fps := {| num := 30; den := 1 |};
               w := 426; h := 240; bitrate := 600000 |};
            {| fname := "out1test.ts"; fps := {| num := 30; den := 1 |};
               w := 256; h := 144; bitrate := 400000 |}] 2
           ltac:(vm_compute; left))).
Defined.

(** ** Profiles written from numbers *)
Section Rendered.

Lemma Atoi_thousands (b : N) :
  in_int64 (1000 * Z.of_N b) ->
  Strconv.Atoi (pretty b ++ "000") = inr (1000 * Z.of_N b).
Proof.
  intros Hb. apply Atoi_spec.
  destruct (pretty_N_digits b) as (Hne & Hd & Hv).
  assert (Hall : all_digits (pretty b ++ "000") = true).
  { rewrite all_digits_app, Hd. reflexivity. }
  assert (Hnonempty : pretty b ++ "000" <> EmptyString).
  { intros E. apply (f_equal String.length) in E. rewrite length_append in E.
    cbn [String.length] in E. lia. }
  destruct (is_decimal_digits _ Hnonempty Hall) as (Hdec & Hval & _).
  assert (Hnum : signed_value (pretty b ++ "000") = 1000 * Z.of_N b).
  { rewrite Hval. unfold decimal_value in *. rewrite decimal_from_app, Hv.
    cbn [decimal_from]. change (Strconv.digit "0") with 0. lia. }
  unfold valid_int. rewrite Hdec, Hnum. unfold in_int64 in Hb.
  split; [|reflexivity]. apply andb_true_iff.
  split; [apply Z.leb_le|apply Z.ltb_lt]; lia.
Qed.

(** The entry computed for a rendered profile, before any assumption
    on the C int range. *)
Lemma profile_params_render input i (x : numbers) :
  in_int64 (nw x) -> in_int64 (nh x) -> in_int64 (1000 * Z.of_N (nkbps x)) ->
  profile_params input i (render x)
  = inr {| fname := oname input i;
           fps := {| num := C_int (nfps x); den := 1 |};
           w := C_int (nw x); h := C_int (nh x);
           bitrate := C_int (1000 * Z.of_N (nkbps x)) |}.
Proof.
  intros Hw Hh Hb. unfold profile_params, render. cbn [Resolution Bitrate Framerate].
  change (pretty (nw x) ++ "x" ++ pretty (nh x))
    with (pretty (nw x) ++ String "x" (pretty (nh x))).
  rewrite Split_app_sep.
  rewrite !Split_no_sep by (by apply Count_pretty_Z).
  cbn [app]. rewrite !Atoi_pretty by done.
  rewrite Replace1_app.
  2:{ apply Count_all_digits; [reflexivity|]. apply pretty_N_digits. }
  change ("000" ++ "") with "000". by rewrite Atoi_thousands.
Qed.

Lemma fill_params_render input i (xs : list numbers) :
  Forall numbers_in_C_int xs ->
  fill_params input i (map render xs)
  = inr (imap (fun k x => entry_of input (i + k) x) xs).
Proof.
  intros H. revert i. induction H as [|x xs (Hw & Hh & Hf & Hb) _ IH]; intros i.
  - reflexivity.
  - cbn [map fill_params]. unfold in_C_int in *.
    rewrite profile_params_render by (unfold in_int64; lia).
    rewrite IH. cbn [imap]. f_equal. f_equal.
    + unfold entry_of. rewrite Nat.add_0_r.
      by rewrite !C_int_id by (unfold in_C_int; lia).
    + apply imap_ext. intros k y _. simpl. f_equal. lia.
Qed.

End Rendered.

(** X10.  Components of a resolution after the second are ignored: a
    profile whose resolution has at least two components gives the
    same call, in any list, when [x] and anything else is appended to
    its resolution. *)
Theorem X10_extra_resolution_components_ignored {World : Type}
    (rt : string -> list output_params -> Z -> World -> Z * World)
    (Strerror : Z -> string) (ErrorMap : gmap Z error)
    (input : string) (pre : list VideoProfile) (p : VideoProfile)
    (post : list VideoProfile) (extra : string) (st : state World)
    (Hres : ~ resolution_missing p) :
  Transcode World rt Strerror ErrorMap input
    (pre ++ with_resolution p (Resolution p ++ "x" ++ extra) :: post)%list st
  = Transcode World rt Strerror ErrorMap input (pre ++ p :: post)%list st.
Proof.
  assert (Hp : forall i, profile_params input i
                           (with_resolution p (Resolution p ++ "x" ++ extra))
                         = profile_params input i p).
  { intros i. unfold profile_params, with_resolution, resolution_missing in *.
    cbn [Resolution Bitrate Framerate].
    change (Resolution p ++ "x" ++ extra) with (Resolution p ++ String "x" extra).
    rewrite Split_app_sep.
    destruct (GoStrings.Split (Resolution p) "x") as [|res0 [|res1 rest]];
      [simpl in Hres; lia..|reflexivity]. }
  unfold Transcode. by rewrite !fill_params_app, !Hp.
Qed.

(** A third component after 426x240. *)
Lemma X10_extra_resolution_components_ignored_witness :
  Transcode unit (const_transcode 0) no_Strerror ∅ "test.ts"
    ([] ++ with_resolution P240p30fps16x9 ("426x240" ++ "x" ++ "16:9") :: [])%list
    (initial tt)
  = Transcode unit (const_transcode 0) no_Strerror ∅ "test.ts"
      ([] ++ P240p30fps16x9 :: [])%list (initial tt).
Proof.
  refine (X10_extra_resolution_components_ignored (const_transcode 0) no_Strerror ∅
            "test.ts" [] P240p30fps16x9 [] "16:9" (initial tt) _).
  unfold resolution_missing. vm_compute. lia.
Defined.

(** X11.  Profiles written from numbers reach the runtime with these
    numbers: for a non-empty list of profiles whose resolution is the
    decimal width, [x] and the decimal height and whose bitrate is a
    decimal number followed by [k], all within the C int range, the
    runtime is called once with, for the [i]-th profile, the name
    [out<i><input>], that width and height, the frame rate over 1 and
    a thousand times the bitrate number. *)
Theorem X11_numbers_reach_the_runtime {World : Type}
    (rt : string -> list output_params -> Z -> World -> Z * World)
    (Strerror : Z -> string) (ErrorMap : gmap Z error)
    (input : string) (xs : list numbers) (st : state World)
    (Hrange : Forall numbers_in_C_int xs) (Hne : xs <> []) :
  exists log,
    trace (snd (Transcode World rt Strerror ErrorMap input (map render xs) st))
    = (trace st
       ++ Call_transcode input (imap (entry_of input) xs)
            (C_int (Z.of_nat (length xs))) :: log)%list /\
    Forall (fun e => is_runtime_call e = false) log.
Proof.
  pose proof (fill_params_render input 0 xs Hrange) as Hfill.
  destruct (Transcode_effects rt Strerror ErrorMap input (map render xs) st)
    as [Hsame|(params & log & Hfill' & _ & _ & _ & Htrace & Hlog)].
  - exfalso. destruct xs as [|x xs]; [done|].
    assert (Hpar : imap (fun k y => entry_of input (0 + k) y) (x :: xs) <> [])
      by discriminate.
    rewrite (Transcode_run rt Strerror ErrorMap _ _ _ st Hfill Hpar) in Hsame.
    unfold after_call in Hsame.
    destruct (_ =? 0); apply (f_equal trace) in Hsame; simpl in Hsame;
      apply (f_equal (@length event)) in Hsame; rewrite !length_app in Hsame;
      simpl in Hsame; lia.
  - exists log. split; [|exact Hlog]. rewrite Htrace.
    rewrite Hfill in Hfill'. injection Hfill' as <-. by rewrite length_map.
Qed.

(** Two profiles written from numbers. *)
Lemma X11_numbers_reach_the_runtime_witness :
  exists log,
    trace (snd (Transcode unit (const_transcode 0) no_Strerror ∅ "test.ts"
                  (map render [ {| nw := 426; nh := 240; nkbps := 600; nfps := 30 |};
                                {| nw := 256; nh := 144; nkbps := 400; nfps := 30 |} ])
                  (initial tt)))
    = ([] ++ Call_transcode "test.ts"
              (imap (entry_of "test.ts")
                 [ {| nw := 426; nh := 240; nkbps := 600; nfps := 30 |};
                   {| nw := 256; nh := 144; nkbps := 400; nfps := 30 |} ])
              (C_int 2) :: log)%list /\
    Forall (fun e => is_runtime_call e = false) log.
Proof.
  refine (X11_numbers_reach_the_runtime (const_transcode 0) no_Strerror ∅ "test.ts"
            [ {| nw := 426; nh := 240; nkbps := 600; nfps := 30 |};
              {| nw := 256; nh := 144; nkbps := 400; nfps := 30 |} ]
            (initial tt) _ _).
  - repeat constructor; vm_compute; congruence.
  - discriminate.
Defined.

(** X12.  A width or height that fits Go's [int] is never rejected for
    leaving the C int range: it is reduced modulo 2^32.  Profiles
    written from widths that differ by a multiple of 2^32 give the same
    call, in any list. *)
Theorem X12_width_wraps_around {World : Type}
    (rt : string -> list output_params -> Z -> World -> Z * World)
    (Strerror : Z -> string) (ErrorMap : gmap Z error)
    (input : string) (pre post : list VideoProfile) (x : numbers) (k : Z)
    (st : state World)
    (Hw : in_int64 (nw x)) (Hw' : in_int64 (nw x + k * 2 ^ 32))
    (Hh : in_int64 (nh x)) (Hb : in_int64 (1000 * Z.of_N (nkbps x))) :
  Transcode World rt Strerror ErrorMap input
    (pre ++ render {| nw := nw x + k * 2 ^ 32; nh := nh x;
                      nkbps := nkbps x; nfps := nfps x |} :: post)%list st
  = Transcode World rt Strerror ErrorMap input (pre ++ render x :: post)%list st.
Proof.
  unfold Transcode. rewrite !fill_params_app.
  rewrite !profile_params_render by done. cbn [nw nh nkbps nfps].
  by rewrite C_int_periodic.
Qed.

(** The width 426 and the width 426 + 2^32. *)
Lemma X12_width_wraps_around_witness :
  Transcode unit (const_transcode 0) no_Strerror ∅ "test.ts"
    ([] ++ render {| nw := 426 + 1 * 2 ^ 32; nh := 240; nkbps := 600; nfps := 30 |}
        :: [])%list (initial tt)
  = Transcode unit (const_transcode 0) no_Strerror ∅ "test.ts"
      ([] ++ render {| nw := 426; nh := 240; nkbps := 600; nfps := 30 |} :: [])%list
      (initial tt).
Proof.
  refine (X12_width_wraps_around (const_transcode 0) no_Strerror ∅ "test.ts" [] []
            {| nw := 426; nh := 240; nkbps := 600; nfps := 30 |} 1 (initial tt) _ _ _ _);
    vm_compute; split; congruence.
Defined.

(** ** RTMPToHLS: codes without an entry *)

(** X14.  Whatever [ErrorMap] holds, as long as it has fewer than 2^31
    entries, some negative C int code has no entry: when the runtime
    answers it, [RTMPToHLS] returns nil although the runtime call
    failed. *)
Theorem X14_some_failure_code_returns_nil
    (Strerror : Z -> string) (ErrorMap : gmap Z error)
    (Hsize : Z.of_nat (size ErrorMap) < 2 ^ 31) :
  exists r, - 2 ^ 31 <= r < 0 /\
    forall url m3u8 tmpl seglen st,
      fst (RTMPToHLS unit (const_rtmp2hls r) Strerror ErrorMap url m3u8 tmpl seglen st)
      = Done None.
Proof.
  set (codes := list_to_set (seqZ (- 2 ^ 31) (2 ^ 31)) : gset Z).
  assert (Hcodes : size codes = Z.to_nat (2 ^ 31)).
  { unfold codes. rewrite size_list_to_set by apply NoDup_seqZ. apply length_seqZ. }
  assert (Hfree : exists r, r ∈ codes ∖ dom ErrorMap).
  { apply size_pos_elem_of.
    pose proof (size_union_alt (dom ErrorMap) codes) as Hu.
    pose proof (subseteq_size codes (dom ErrorMap ∪ codes) ltac:(apply union_subseteq_r)) as Hle.
    rewrite size_dom in Hu. lia. }
  destruct Hfree as [r Hr]. apply elem_of_difference in Hr as [Hin Hout].
  unfold codes in Hin. rewrite elem_of_list_to_set, elem_of_seqZ in Hin.
  exists r. split; [lia|]. intros url m3u8 tmpl seglen st.
  rewrite RTMPToHLS_run. unfold after_call, const_rtmp2hls. cbn [fst snd].
  destruct (Z.eqb_spec r 0); [lia|]. cbn [fst]. unfold ErrorMap_index.
  apply not_elem_of_dom in Hout. by rewrite Hout.
Qed.

(** A table with one entry. *)
Lemma X14_some_failure_code_returns_nil_witness :
  exists r, - 2 ^ 31 <= r < 0 /\
    forall url m3u8 tmpl seglen st,
      fst (RTMPToHLS unit (const_rtmp2hls r) no_Strerror
             {[ (-2) := Some (ErrorsNew "No such file or directory") ]}
             url m3u8 tmpl seglen st)
      = Done None.
Proof.
  refine (X14_some_failure_code_returns_nil no_Strerror
            {[ (-2) := Some (ErrorsNew "No such file or directory") ]} _).
  rewrite map_size_singleton. reflexivity.
Defined.
